(** * Simple Options Scalper: position ledger and auto-close evaluation

    A shallow embedding of [fo.py]: the [Trade] records kept in
    [st.session_state.trades], the close operation [update_trade_exit], the
    LTP scan [auto_close_if_hit] and the "Add Trade" button handler.

    Modelling choices.
    - Python floats are IEEE binary64: they are Rocq's primitive [float], with
      the kernel's own subtraction, multiplication and comparisons.
    - Python ints ([lot_size], [lots]) are [Z]; in [float * int] the int is
      converted to the nearest binary64 value ([float_of_int]).
    - The two strings stored under ["status"] and the two strings offered by
      the type select box are enumerations.
    - [st.session_state.trades] is a Python list of dicts mutated in place;
      it is a [list Trade] threaded through every operation, and a loop over
      it reads the current record at each index.
    - [ltp_map] is a dict from symbol to premium: a [gmap string float].
    - [st.toast] is an output effect: the notifications are collected, in
      order, next to the ledger (their text rendering is not modelled, only
      the values interpolated into it). *)

From Stdlib Require Import ZArith String Ascii Floats Lia.
From stdpp Require Import base list strings gmap.

(** ** Data model *)

Inductive OptionType := CE | PE.

Inductive Status := OPEN | CLOSED.

(** The dataclass [Trade]; [asdict] keeps exactly these keys. *)
Record Trade := mkTrade {
  id : string;
  ts : string;
  symbol : string;
  option_type : OptionType;
  strike : float;
  expiry : string;
  lot_size : Z;
  lots : Z;
  entry : float;
  target : float;
  stop : float;
  auto_close : bool;
  status : Status;
  exit_price : float;
  pnl : float
}.

(** The values interpolated into the text of [st.toast] on a closure. *)
Record Toast := mkToast {
  toast_symbol : string;
  toast_strike : float;
  toast_option_type : OptionType;
  toast_exit_price : float;
  toast_pnl : float
}.

(** The part of the session the operations read and write. *)
Record session := mkSession {
  trades : list Trade;
  toasts : list Toast
}.

Definition init_state : session := {| trades := []; toasts := [] |}.

(** ** Float and int primitives *)

(** [x >= y] and [x > y] on floats (false as soon as one side is NaN). *)
Definition float_ge (x y : float) : bool := PrimFloat.leb y x.

Definition float_gt (x y : float) : bool := PrimFloat.ltb y x.

(** Conversion of a Python int to float, round to nearest even. The ints the
    number inputs deliver stay below 2^53 in absolute value, where the
    conversion is exact. *)
Definition float_of_int (z : Z) : float :=
  SF2Prim (binary_normalize prec emax z 0 false).

Definition is_open (t : Trade) : bool :=
  match status t with OPEN => true | CLOSED => false end.

(** ** [update_trade_exit] *)

(** The three assignments of the loop body, on one record. [sign] is computed
    by the source and never used. *)
Definition close_trade (px : float) (t : Trade) : Trade :=
  let sign : Z := match option_type t with CE => 1%Z | PE => (-1)%Z end in
  let pnl' := ((px - entry t) * float_of_int (lot_size t) * float_of_int (lots t))%float in
  {| id := id t; ts := ts t; symbol := symbol t; option_type := option_type t;
     strike := strike t; expiry := expiry t; lot_size := lot_size t;
     lots := lots t; entry := entry t; target := target t; stop := stop t;
     auto_close := auto_close t;
     status := CLOSED; exit_price := px; pnl := pnl' |}.

Definition closure_toast (px : float) (t : Trade) : Toast :=
  {| toast_symbol := symbol t; toast_strike := strike t;
     toast_option_type := option_type t; toast_exit_price := px;
     toast_pnl := pnl (close_trade px t) |}.

(** [for t in trades: if t["id"] == trade_id and t["status"] == "OPEN": ...; break]:
    the first record that matches is rewritten and the scan stops. *)
Fixpoint update_trade_exit_loop (trade_id : string) (px : float) (l : list Trade)
  : list Trade * list Toast :=
  match l with
  | [] => ([], [])
  | t :: r =>
      if String.eqb (id t) trade_id && is_open t
      then (close_trade px t :: r, [closure_toast px t])
      else let '(r', e) := update_trade_exit_loop trade_id px r in (t :: r', e)
  end.

Definition update_trade_exit (trade_id : string) (px : float) (s : session) : session :=
  let '(l, e) := update_trade_exit_loop trade_id px (trades s) in
  {| trades := l; toasts := toasts s ++ e |}.

(** ** [auto_close_if_hit] *)

Definition hit_target (t : Trade) (ltp : float) : bool :=
  match option_type t with
  | CE => float_ge ltp (target t)
  | PE => float_ge ltp (target t)
  end.

Definition hit_stop (t : Trade) (ltp : float) : bool :=
  match option_type t with
  | CE => float_gt (stop t) 0 && PrimFloat.leb ltp (stop t)
  | PE => float_gt (stop t) 0 && PrimFloat.leb ltp (stop t)
  end.

(** One iteration of the loop, on the record found at index [i] of the
    current list. *)
Definition auto_close_body (ltp_map : gmap string float) (s : session) (i : nat) : session :=
  match trades s !! i with
  | None => s
  | Some t =>
      if negb (is_open t) then s
      else match ltp_map !! symbol t with
           | None => s
           | Some ltp =>
               if auto_close t then
                 if hit_target t ltp then update_trade_exit (id t) (target t) s
                 else if hit_stop t ltp then update_trade_exit (id t) (stop t) s
                 else s
               else s
           end
  end.

(** The list keeps its length during the loop, so the iteration visits the
    indices [0 .. len-1] in order. *)
Definition auto_close_if_hit (ltp_map : gmap string float) (s : session) : session :=
  foldl (auto_close_body ltp_map) s (seq 0 (length (trades s))).

(** ** The "Add Trade" handler *)

(** [str.strip] and [str.upper] on ASCII text. *)
Definition is_space (c : ascii) : bool :=
  let n := nat_of_ascii c in
  (Nat.leb 9 n && Nat.leb n 13) || (Nat.leb 28 n && Nat.leb n 32).

Fixpoint lstrip (s : string) : string :=
  match s with
  | EmptyString => EmptyString
  | String c r => if is_space c then lstrip r else s
  end.

Definition strip (s : string) : string :=
  String.rev (lstrip (String.rev (lstrip s))).

Definition upper_char (c : ascii) : ascii :=
  let n := nat_of_ascii c in
  if Nat.leb 97 n && Nat.leb n 122 then ascii_of_nat (n - 32) else c.

Fixpoint upper (s : string) : string :=
  match s with
  | EmptyString => EmptyString
  | String c r => String (upper_char c) (upper r)
  end.

(** The widget values read by the handler. *)
Record Form := mkForm {
  f_symbol : string;
  f_option_type : OptionType;
  f_strike : float;
  f_expiry : string;
  f_lot_size : Z;
  f_lots : Z;
  f_entry : float;
  f_target : float;
  f_stop : float;
  f_auto_close : bool
}.

Definition save_trade (t : Trade) (s : session) : session :=
  {| trades := trades s ++ [t]; toasts := toasts s |}.

(** [uuid4] is the text of the UUID drawn by [uuid.uuid4()], [now] the
    formatted clock reading; both are inputs of the handler. *)
Definition new_trade (uuid4 now : string) (f : Form) : Trade :=
  {| id := substring 0 8 uuid4;
     ts := now;
     symbol := upper (strip (f_symbol f));
     option_type := f_option_type f;
     strike := f_strike f;
     expiry := strip (f_expiry f);
     lot_size := f_lot_size f;
     lots := f_lots f;
     entry := f_entry f;
     target := f_target f;
     stop := f_stop f;
     auto_close := f_auto_close f;
     status := OPEN;
     exit_price := 0%float;
     pnl := 0%float |}.

Definition add_trade (uuid4 now : string) (f : Form) (s : session) : session :=
  save_trade (new_trade uuid4 now f) s.

(** ** How a call ends *)

(** The error kinds a caller could be handed. The source defines none of
    them and contains no [raise]: each operation ends by returning. *)
Inductive error := ValidationError | NotFoundError | AlreadyClosedError.

Inductive outcome := Returns (s : session) | Raises (e : error).

Definition call_update_trade_exit (trade_id : string) (px : float) (s : session) : outcome :=
  Returns (update_trade_exit trade_id px s).

Definition call_add_trade (uuid4 now : string) (f : Form) (s : session) : outcome :=
  Returns (add_trade uuid4 now f s).

(** ** Sample data *)

Definition sample_form : Form :=
  {| f_symbol := "midcpnifty "; f_option_type := CE; f_strike := 14000%float;
     f_expiry := "14-Aug-2025"; f_lot_size := 140; f_lots := 2;
     f_entry := 2.5%float; f_target := 3%float; f_stop := 2%float;
     f_auto_close := true |}.

Definition sample_session : session :=
  add_trade "1b9d6bcd-bbfd-4b2d-9b5d-ab8dfbbd4bed" "2025-08-14 09:30:00" sample_form init_state.

Definition sample_trade : Trade :=
  new_trade "1b9d6bcd-bbfd-4b2d-9b5d-ab8dfbbd4bed" "2025-08-14 09:30:00" sample_form.

(** The sample position after a manual close at 3.00. *)
Definition closed_session : session :=
  update_trade_exit "1b9d6bcd" 3%float sample_session.

(** A form whose symbol box holds only blanks. *)
Definition blank_form : Form :=
  {| f_symbol := "   "; f_option_type := CE; f_strike := 14000%float;
     f_expiry := "14-Aug-2025"; f_lot_size := 140; f_lots := 1;
     f_entry := 2.5%float; f_target := 3%float; f_stop := 0%float;
     f_auto_close := true |}.

(** A put whose stop lies above its target, so that one LTP can satisfy both
    conditions. *)
Definition tie_form : Form :=
  {| f_symbol := "NIFTY"; f_option_type := PE; f_strike := 24000%float;
     f_expiry := "14-Aug-2025"; f_lot_size := 75; f_lots := 1;
     f_entry := 2.5%float; f_target := 2%float; f_stop := 3%float;
     f_auto_close := true |}.


Definition tie_trade : Trade :=
  new_trade "7c0e1f2a-1111-4222-8333-444455556666" "2025-08-14 09:31:00" tie_form.

(** A position that opted out of auto-close, with no stop configured. *)
Definition manual_form : Form :=
  {| f_symbol := "MIDCPNIFTY"; f_option_type := CE; f_strike := 14000%float;
     f_expiry := "14-Aug-2025"; f_lot_size := 140; f_lots := 1;
     f_entry := 2.5%float; f_target := 3%float; f_stop := 0%float;
     f_auto_close := false |}.

Definition manual_session : session :=
  add_trade "0a1b2c3d-aaaa-4bbb-8ccc-ddddeeeeffff" "2025-08-14 09:32:00" manual_form init_state.

Definition manual_trade : Trade :=
  new_trade "0a1b2c3d-aaaa-4bbb-8ccc-ddddeeeeffff" "2025-08-14 09:32:00" manual_form.

(** Two different UUIDs that agree on their first eight characters. *)
Definition uuid_a : string := "1b9d6bcd-bbfd-4b2d-9b5d-ab8dfbbd4bed".

Definition uuid_b : string := "1b9d6bcd-0f4e-4c1a-8d2b-5e6f7a8b9c0d".

Definition colliding_requests : list (string * string * Form) :=
  [ (uuid_a, "2025-08-14 09:30:00", sample_form);
    (uuid_b, "2025-08-14 09:45:00", tie_form) ].

(** ** Derived notions used in the statements *)

(** The ids of a ledger, in ledger order ([id] is the record field). *)
Definition ids (l : list Trade) : list string := map (fun t => id t) l.

(** The data model's invariant: no two positions carry the same id. *)
Definition unique_ids (l : list Trade) : Prop := NoDup (ids l).

(** The test of the scan in [update_trade_exit]. *)
Definition matches (trade_id : string) (t : Trade) : Prop :=
  id t = trade_id /\ status t = OPEN.

(** What one call of [update_trade_exit] may do to one record: nothing, or
    close it if it was open. *)
Definition closes (t t' : Trade) : Prop :=
  t' = t \/ (status t = OPEN /\ exists px, t' = close_trade px t).

(** The stored P&L of a record is the formula on its own stored fields. *)
Definition pnl_formula (t : Trade) : float :=
  ((exit_price t - entry t) * float_of_int (lot_size t) * float_of_int (lots t))%float.

(** The call, if any, that an iteration of [auto_close_if_hit] issues for a
    record it finds in the ledger: the id and the price handed to
    [update_trade_exit]. *)
Definition trigger (ltp_map : gmap string float) (t : Trade) : option (string * float) :=
  if negb (is_open t) then None
  else match ltp_map !! symbol t with
       | None => None
       | Some ltp =>
           if auto_close t then
             if hit_target t ltp then Some (id t, target t)
             else if hit_stop t ltp then Some (id t, stop t)
             else None
           else None
       end.

(** The evaluator as the specification words it: a function from positions
    and snapshot to the ordered sequence of (position id, trigger price). *)
Definition evaluate (positions : list Trade) (ltp_map : gmap string float)
  : list (string * float) :=
  omap (trigger ltp_map) positions.

(** Feeding triggers, in order, into the close operation. *)
Definition apply_triggers (s : session) (trs : list (string * float)) : session :=
  foldl (fun s tr => update_trade_exit tr.1 tr.2 s) s trs.

(** The effect of an evaluation pass on one record of a ledger with
    pairwise distinct ids. *)
Definition auto_close_one (ltp_map : gmap string float) (t : Trade) : Trade :=
  match trigger ltp_map t with
  | Some tr => close_trade tr.2 t
  | None => t
  end.

(** A sequence of "Add Trade" clicks, each with its UUID draw, clock reading
    and form contents. *)
Definition add_trades (reqs : list (string * string * Form)) (s : session) : session :=
  foldl (fun s r => add_trade r.1.1 r.1.2 r.2 s) s reqs.

(** ** The rest of the script *)

(** *** [init_state] on the session dictionary *)

(** A cell of a record seen as a dict, as [asdict] produces it. *)
Inductive Cell :=
  | CStr (s : string)
  | CFloat (x : float)
  | CInt (z : Z)
  | CBool (b : bool).

(** What [st.session_state] holds under its four keys. *)
Inductive Value :=
  | VTrades (l : list Trade)
  | VStr (s : string)
  | VInt (z : Z)
  | VDict (d : list (string * Cell)).

(** [if k not in st.session_state: st.session_state[k] = v]. *)
Definition set_if_absent (k : string) (v : Value) (ss : gmap string Value)
  : gmap string Value :=
  match ss !! k with
  | Some _ => ss
  | None => <[k := v]> ss
  end.

(** The function [init_state] of the source, on any session dictionary
    ([init_state] above is the ledger it leaves in a fresh session). *)
Definition init_state_keys (ss : gmap string Value) : gmap string Value :=
  set_if_absent "last_form" (VDict [])
    (set_if_absent "default_lot" (VInt 140)
       (set_if_absent "default_symbol" (VStr "MIDCPNIFTY")
          (set_if_absent "trades" (VTrades []) ss))).

(** *** [to_df] *)

Definition status_str (x : Status) : string :=
  match x with OPEN => "OPEN" | CLOSED => "CLOSED" end.

Definition option_type_str (x : OptionType) : string :=
  match x with CE => "CE" | PE => "PE" end.

(** The dict stored in the ledger for a record: the dataclass fields in
    declaration order. *)
Definition asdict (t : Trade) : list (string * Cell) :=
  [ ("id", CStr (id t)); ("ts", CStr (ts t)); ("symbol", CStr (symbol t));
    ("option_type", CStr (option_type_str (option_type t)));
    ("strike", CFloat (strike t)); ("expiry", CStr (expiry t));
    ("lot_size", CInt (lot_size t)); ("lots", CInt (lots t));
    ("entry", CFloat (entry t)); ("target", CFloat (target t));
    ("stop", CFloat (stop t)); ("auto_close", CBool (auto_close t));
    ("status", CStr (status_str (status t)));
    ("exit_price", CFloat (exit_price t)); ("pnl", CFloat (pnl t)) ].

(** The column list written out in [to_df] for the empty ledger. *)
Definition blotter_columns : list string :=
  [ "id"; "ts"; "symbol"; "option_type"; "strike"; "expiry"; "lot_size"; "lots";
    "entry"; "target"; "stop"; "auto_close"; "status"; "exit_price"; "pnl" ].

(** A data frame: column labels and, per row, one cell per column ([None]
    where a record lacks the key). *)
Record DataFrame := mkDataFrame {
  columns : list string;
  rows : list (list (option Cell))
}.

Fixpoint dict_get (k : string) (d : list (string * Cell)) : option Cell :=
  match d with
  | [] => None
  | (k', v) :: r => if String.eqb k' k then Some v else dict_get k r
  end.

(** [pd.DataFrame(list_of_dicts)]: the columns are the keys in order of
    first appearance over the records. *)
Definition add_keys (cols : list string) (d : list (string * Cell)) : list string :=
  foldl (fun cs kv => if existsb (String.eqb kv.1) cs then cs else cs ++ [kv.1]) cols d.

Definition DataFrame_of_records (rs : list (list (string * Cell))) : DataFrame :=
  let cols := foldl add_keys [] rs in
  {| columns := cols; rows := map (fun d => map (fun c => dict_get c d) cols) rs |}.

Definition to_df (s : session) : DataFrame :=
  match trades s with
  | [] => {| columns := blotter_columns; rows := [] |}
  | _ :: _ => DataFrame_of_records (map asdict (trades s))
  end.

(** [df.empty]: some axis has length zero. *)
Definition df_empty (df : DataFrame) : bool :=
  match columns df, rows df with
  | [], _ => true
  | _, [] => true
  | _, _ => false
  end.

(** The cells of a record, in field order. *)
Definition row_of (t : Trade) : list (option Cell) := map (fun kv => Some kv.2) (asdict t).

(** *** The sidebar: one LTP box per symbol, then "Apply LTP & Auto-Close" *)

Fixpoint insert_sorted (x : string) (l : list string) : list string :=
  match l with
  | [] => [x]
  | y :: r => if String.leb x y then x :: l else y :: insert_sorted x r
  end.

(** [sorted] on a list of distinct strings. *)
Definition sorted (l : list string) : list string := foldr insert_sorted [] l.

(** [{t["symbol"] for t in trades}]. *)
Definition symbols (l : list Trade) : gset string := list_to_set (map (fun t => symbol t) l).

(** [widget sym] is the value of the number input shown for [sym]. *)
Definition ltp_inputs (widget : string -> float) (s : session) : gmap string float :=
  foldl (fun m sym => <[sym := widget sym]> m) ∅ (sorted (elements (symbols (trades s)))).

Definition apply_ltp (widget : string -> float) (s : session) : session :=
  auto_close_if_hit (ltp_inputs widget s) s.

(** *** The profit preview under the form *)

Definition per_lot_profit (f : Form) : float :=
  ((f_target f - f_entry f) * float_of_int (f_lot_size f))%float.

Definition preview_total (f : Form) : float :=
  (per_lot_profit f * float_of_int (f_lots f))%float.

(** *** The three buttons that change the ledger *)

Inductive action :=
  | AddTrade (uuid4 now : string) (f : Form)
  | CloseSelected (pick : string) (close_px : float)
  | ApplyLTP (ltp_map : gmap string float).

Definition handle (s : session) (a : action) : session :=
  match a with
  | AddTrade uuid4 now f => add_trade uuid4 now f s
  | CloseSelected pick close_px => update_trade_exit pick close_px s
  | ApplyLTP ltp_map => auto_close_if_hit ltp_map s
  end.

Definition run (s : session) (acts : list action) : session := foldl handle s acts.

Definition is_add (a : action) : bool :=
  match a with AddTrade _ _ _ => true | _ => false end.

Fixpoint closed_count (l : list Trade) : nat :=
  match l with
  | [] => 0
  | t :: r => (if is_open t then 0 else 1) + closed_count r
  end.

(** What a record looks like in each of its two states. *)
Definition record_ok (t : Trade) : Prop :=
  match status t with
  | OPEN => exit_price t = 0%float /\ pnl t = 0%float
  | CLOSED => pnl t = pnl_formula t
  end.

(** The notification of an evaluation pass for one record, if any. *)
Definition trigger_toast (ltp_map : gmap string float) (t : Trade) : option Toast :=
  match trigger ltp_map t with
  | Some tr => Some (closure_toast tr.2 t)
  | None => None
  end.

(** The outcome of "Apply LTP & Auto-Close" for one record, from the value
    [ltp] of the box of its symbol. *)
Definition after_apply (ltp : float) (t : Trade) : Trade :=
  match status t with
  | CLOSED => t
  | OPEN =>
      if auto_close t then
        if float_ge ltp (target t) then close_trade (target t) t
        else if float_gt (stop t) 0 && PrimFloat.leb ltp (stop t)
             then close_trade (stop t) t
             else t
      else t
  end.

(** Strings as lists of characters, for reasoning about [strip]. *)
Fixpoint lstrip_list (l : list ascii) : list ascii :=
  match l with
  | [] => []
  | c :: r => if is_space c then lstrip_list r else l
  end.

Definition clean_head (l : list ascii) : Prop :=
  match l with
  | [] => True
  | c :: _ => is_space c = false
  end.

(** A two-position session for the examples. *)
Definition two_session : session :=
  add_trade "0a1b2c3d-aaaa-4bbb-8ccc-ddddeeeeffff" "2025-08-14 09:32:00" manual_form
    sample_session.

(** A call with its target far above and its stop far below the premiums
    used in the examples. *)
Definition far_form : Form :=
  {| f_symbol := "MIDCPNIFTY"; f_option_type := CE; f_strike := 14000%float;
     f_expiry := "14-Aug-2025"; f_lot_size := 140; f_lots := 1;
     f_entry := 2.5%float; f_target := 5%float; f_stop := 1%float;
     f_auto_close := true |}.

Definition far_trade : Trade := new_trade uuid_a "2025-08-14 09:30:00" far_form.

(** Two "Add Trade" clicks whose UUID draws agree on the first eight
    characters: the far call, then the put of [tie_form]. *)
Definition shared_id_session : session :=
  add_trade uuid_b "2025-08-14 09:45:00" tie_form
    (add_trade uuid_a "2025-08-14 09:30:00" far_form init_state).

Definition shared_id_snapshot : gmap string float :=
  {[ "MIDCPNIFTY" := 3%float; "NIFTY" := 2.5%float ]}.

(** The same two clicks with the opted-out call of [manual_form] first. *)
Definition shadowed_trade : Trade := new_trade uuid_a "2025-08-14 09:30:00" manual_form.

Definition shadowed_session : session :=
  add_trade uuid_b "2025-08-14 09:45:00" tie_form
    (add_trade uuid_a "2025-08-14 09:30:00" manual_form init_state).

(** ** The sample session, run *)

Example sample_trades :
  trades sample_session =
  [ {| id := "1b9d6bcd"; ts := "2025-08-14 09:30:00"; symbol := "MIDCPNIFTY";
       option_type := CE; strike := 14000%float; expiry := "14-Aug-2025";
       lot_size := 140; lots := 2; entry := 2.5%float; target := 3%float;
       stop := 2%float; auto_close := true; status := OPEN;
       exit_price := 0%float; pnl := 0%float |} ].
Proof. reflexivity. Qed.

Example sample_close :
  trades (update_trade_exit "1b9d6bcd" 3%float sample_session) =
  [ {| id := "1b9d6bcd"; ts := "2025-08-14 09:30:00"; symbol := "MIDCPNIFTY";
       option_type := CE; strike := 14000%float; expiry := "14-Aug-2025";
       lot_size := 140; lots := 2; entry := 2.5%float; target := 3%float;
       stop := 2%float; auto_close := true; status := CLOSED;
       exit_price := 3%float; pnl := 140%float |} ].
Proof. reflexivity. Qed.

Example sample_auto_close_stop :
  trades (auto_close_if_hit {[ "MIDCPNIFTY" := 2%float ]} sample_session) =
  trades (update_trade_exit "1b9d6bcd" 2%float sample_session).
Proof. vm_compute. reflexivity. Qed.

(** ** Facts about [update_trade_exit] *)

Lemma lookup_map_Some {A B : Type} (f : A -> B) (l : list A) (i : nat) (x : A) :
  l !! i = Some x -> map f l !! i = Some (f x).
Proof.
  revert i. induction l as [|a l IH]; intros [|i] H; simplify_eq/=; [done|by apply IH].
Qed.

Lemma lookup_map_inv {A B : Type} (f : A -> B) (l : list A) (i : nat) (x : A) (y : B) :
  l !! i = Some x -> map f l !! i = Some y -> y = f x.
Proof. intros H Hy. rewrite (lookup_map_Some f l i x H) in Hy. congruence. Qed.

Section update_trade_exit_facts.
Variables (trade_id : string) (px : float).

Lemma matches_test t :
  String.eqb (id t) trade_id && is_open t = true <-> matches trade_id t.
Proof.
  unfold matches, is_open. rewrite andb_true_iff, String.eqb_eq.
  destruct (status t); intuition congruence.
Qed.

Lemma update_loop_no_match l :
  Forall (fun t => ~ matches trade_id t) l ->
  update_trade_exit_loop trade_id px l = (l, []).
Proof.
  induction 1 as [|t r Ht _ IH]; simpl; [done|].
  destruct (String.eqb (id t) trade_id && is_open t) eqn:E.
  - apply matches_test in E. contradiction.
  - by rewrite IH.
Qed.

Lemma update_loop_first l1 t l2 :
  Forall (fun u => ~ matches trade_id u) l1 -> matches trade_id t ->
  update_trade_exit_loop trade_id px (l1 ++ t :: l2)
  = (l1 ++ close_trade px t :: l2, [closure_toast px t]).
Proof.
  intros H1 Ht. induction H1 as [|u r Hu _ IH]; simpl.
  - apply matches_test in Ht. by rewrite Ht.
  - destruct (String.eqb (id u) trade_id && is_open u) eqn:E.
    + apply matches_test in E. contradiction.
    + by rewrite IH.
Qed.

(** The scan either finds nothing, or splits the ledger at the first
    open record carrying the id. *)
Lemma update_loop_cases l :
  Forall (fun t => ~ matches trade_id t) l \/
  exists l1 t l2, l = l1 ++ t :: l2 /\ Forall (fun u => ~ matches trade_id u) l1 /\ matches trade_id t.
Proof.
  induction l as [|t r IH]; [by left|].
  destruct (String.eqb (id t) trade_id && is_open t) eqn:E.
  - right. exists [], t, r. apply matches_test in E. split; [done|]. split; [constructor|done].
  - assert (~ matches trade_id t) as Hn.
    { intros Hm. apply matches_test in Hm. congruence. }
    destruct IH as [IH|(l1 & u & l2 & -> & H1 & Hu)].
    + left. by constructor.
    + right. exists (t :: l1), u, l2. split; [done|]. split; [by constructor|done].
Qed.

Lemma closes_refl t : closes t t.
Proof. by left. Qed.

Lemma update_loop_closes l :
  Forall2 closes l (update_trade_exit_loop trade_id px l).1.
Proof.
  destruct (update_loop_cases l) as [H|(l1 & t & l2 & -> & H1 & Ht)].
  - rewrite update_loop_no_match by done. simpl.
    apply Forall2_same_length_lookup_2; [done|].
    intros i x y Hx Hy. left. congruence.
  - rewrite update_loop_first by done. simpl.
    apply Forall2_app; [|constructor].
    + apply Forall_Forall2_diag, Forall_true. intros; apply closes_refl.
    + right. split; [apply Ht|by exists px].
    + apply Forall_Forall2_diag, Forall_true. intros; apply closes_refl.
Qed.

(** A call issued for a record found open at index [k] leaves everything
    after index [k] alone. *)
Lemma update_loop_drop l k t :
  l !! k = Some t -> matches trade_id t ->
  drop (S k) (update_trade_exit_loop trade_id px l).1 = drop (S k) l.
Proof.
  revert k. induction l as [|u r IH]; intros k Hk Ht; [done|].
  simpl. destruct (String.eqb (id u) trade_id && is_open u) eqn:E; [done|].
  destruct k as [|k]; simpl in Hk.
  - injection Hk as ->. apply matches_test in Ht. congruence.
  - specialize (IH k Hk Ht).
    destruct (update_trade_exit_loop trade_id px r) as [r' e]. apply IH.
Qed.
End update_trade_exit_facts.

Lemma trades_update_trade_exit trade_id px s :
  trades (update_trade_exit trade_id px s)
  = (update_trade_exit_loop trade_id px (trades s)).1.
Proof.
  unfold update_trade_exit.
  by destruct (update_trade_exit_loop trade_id px (trades s)).
Qed.

Lemma update_trade_exit_no_match trade_id px s :
  Forall (fun t => ~ matches trade_id t) (trades s) ->
  update_trade_exit trade_id px s = s.
Proof.
  intros H. unfold update_trade_exit.
  rewrite update_loop_no_match by done.
  destruct s as [l e]; simpl. by rewrite app_nil_r.
Qed.

(** ** Facts about [closes] *)

Lemma closes_closed t t' : closes t t' -> status t = CLOSED -> t' = t.
Proof. intros [->|[Ho _]] Hc; [done|congruence]. Qed.

Lemma closes_trans t1 t2 t3 : closes t1 t2 -> closes t2 t3 -> closes t1 t3.
Proof.
  intros [->|[Ho [p ->]]] H23; [done|].
  apply closes_closed in H23 as ->; [|done].
  right. eauto.
Qed.

Lemma closes_id t t' : closes t t' -> id t' = id t.
Proof. by intros [->|[_ [p ->]]]. Qed.

Lemma Forall2_closes_refl l : Forall2 closes l l.
Proof. apply Forall_Forall2_diag, Forall_true. intros; apply closes_refl. Qed.

Lemma Forall2_closes_trans l1 l2 l3 :
  Forall2 closes l1 l2 -> Forall2 closes l2 l3 -> Forall2 closes l1 l3.
Proof.
  intros H12. revert l3.
  induction H12 as [|a b l1 l2 Hab _ IH]; intros l3 H23; inversion H23; subst.
  - constructor.
  - constructor; [by eapply closes_trans|by apply IH].
Qed.

Lemma Forall2_closes_ids l l' : Forall2 closes l l' -> ids l' = ids l.
Proof.
  induction 1 as [|a b l l' Hab _ IH]; [done|].
  unfold ids in *. simpl. by rewrite IH, (closes_id _ _ Hab).
Qed.

Lemma update_trade_exit_closes trade_id px s :
  Forall2 closes (trades s) (trades (update_trade_exit trade_id px s)).
Proof. rewrite trades_update_trade_exit. apply update_loop_closes. Qed.

(** ** Facts about [auto_close_if_hit] *)

Section auto_close_facts.
Variable ltp_map : gmap string float.

(** The loop body issues exactly the call [trigger] describes. *)
Lemma auto_close_body_trigger s i :
  auto_close_body ltp_map s i =
  match trades s !! i with
  | Some t => match trigger ltp_map t with
              | Some tr => update_trade_exit tr.1 tr.2 s
              | None => s
              end
  | None => s
  end.
Proof.
  unfold auto_close_body, trigger.
  destruct (trades s !! i) as [t|]; [|done].
  destruct (negb (is_open t)); [done|].
  destruct (ltp_map !! symbol t) as [ltp|]; [|done].
  destruct (auto_close t); [|done].
  destruct (hit_target t ltp); [done|].
  by destruct (hit_stop t ltp).
Qed.

Lemma trigger_Some t tr :
  trigger ltp_map t = Some tr ->
  tr.1 = id t /\ status t = OPEN /\ auto_close t = true /\
  exists ltp, ltp_map !! symbol t = Some ltp /\
    ((hit_target t ltp = true /\ tr.2 = target t) \/
     (hit_target t ltp = false /\ hit_stop t ltp = true /\ tr.2 = stop t)).
Proof.
  unfold trigger, is_open.
  destruct (status t); simpl; [|done].
  destruct (ltp_map !! symbol t) as [ltp|]; [|done].
  destruct (auto_close t); [|done].
  destruct (hit_target t ltp) eqn:Ht.
  - intros [= <-]. eauto 10.
  - destruct (hit_stop t ltp) eqn:Hs; [|done].
    intros [= <-]. eauto 10.
Qed.

Lemma trigger_close_trade px t : trigger ltp_map (close_trade px t) = None.
Proof. done. Qed.

Lemma auto_close_body_closes s i :
  Forall2 closes (trades s) (trades (auto_close_body ltp_map s i)).
Proof.
  rewrite auto_close_body_trigger.
  destruct (trades s !! i) as [t|]; [|apply Forall2_closes_refl].
  destruct (trigger ltp_map t) as [tr|]; [|apply Forall2_closes_refl].
  apply update_trade_exit_closes.
Qed.

Lemma auto_close_loop_closes js s :
  Forall2 closes (trades s) (trades (foldl (auto_close_body ltp_map) s js)).
Proof.
  revert s. induction js as [|j js IH]; intros s; simpl.
  - apply Forall2_closes_refl.
  - eapply Forall2_closes_trans; [apply auto_close_body_closes|apply IH].
Qed.

Lemma auto_close_if_hit_closes s :
  Forall2 closes (trades s) (trades (auto_close_if_hit ltp_map s)).
Proof. apply auto_close_loop_closes. Qed.

(** After [k] iterations, on a ledger with pairwise distinct ids: the
    first [k] records have had their own trigger applied, the others are
    as they were. *)
Lemma auto_close_prefix s k :
  unique_ids (trades s) -> k <= length (trades s) ->
  trades (foldl (auto_close_body ltp_map) s (seq 0 k))
  = map (auto_close_one ltp_map) (take k (trades s)) ++ drop k (trades s).
Proof.
  intros Hu. induction k as [|k IH]; intros Hk.
  - simpl. by rewrite ?take_0, ?drop_0.
  - rewrite seq_S, foldl_app. simpl.
    specialize (IH ltac:(lia)).
    set (sk := foldl (auto_close_body ltp_map) s (seq 0 k)) in *.
    destruct (lookup_lt_is_Some_2 (trades s) k ltac:(lia)) as [t Ht].
    rewrite (take_S_r _ _ _ Ht), map_app. simpl.
    rewrite (drop_S _ _ _ Ht) in IH.
    assert (length (map (auto_close_one ltp_map) (take k (trades s))) = k) as Hlen.
    { rewrite length_map, length_take. lia. }
    rewrite auto_close_body_trigger.
    assert (trades sk !! k = Some t) as ->.
    { rewrite IH, lookup_app_r by lia. by rewrite Hlen, Nat.sub_diag. }
    unfold auto_close_one at 2.
    destruct (trigger ltp_map t) as [tr|] eqn:Etr.
    + apply trigger_Some in Etr as Etr'.
      destruct Etr' as (Hid & Hop & _).
      rewrite trades_update_trade_exit, IH.
      rewrite update_loop_first; [by rewrite <- app_assoc|  |by split].
      apply List.Forall_forall. intros u Hin [Hidu _].
      apply in_map_iff in Hin as (u0 & <- & Hu0).
      assert (id u0 = id t) as Heq.
      { rewrite <- Hid, <- Hidu. unfold auto_close_one.
        destruct (trigger ltp_map u0); done. }
      unfold unique_ids, ids in Hu.
      rewrite <- (take_drop k (trades s)), (drop_S _ _ _ Ht), map_app in Hu.
      apply NoDup_app in Hu as (_ & Hdis & _).
      apply (Hdis (id t)); apply list_elem_of_In; [|by left].
      rewrite <- Heq. by apply (in_map (fun t => id t)).
    + by rewrite IH, <- app_assoc.
Qed.

Lemma auto_close_if_hit_map s :
  unique_ids (trades s) ->
  trades (auto_close_if_hit ltp_map s) = map (auto_close_one ltp_map) (trades s).
Proof.
  intros Hu. unfold auto_close_if_hit.
  rewrite auto_close_prefix by done.
  by rewrite firstn_all, drop_all, app_nil_r.
Qed.
End auto_close_facts.

(** ** The evaluation as a sequence of close calls *)

Lemma apply_triggers_app s trs1 trs2 :
  apply_triggers s (trs1 ++ trs2) = apply_triggers (apply_triggers s trs1) trs2.
Proof. apply foldl_app. Qed.

Section auto_close_calls.
Variable ltp_map : gmap string float.

Lemma evaluate_snoc l t :
  evaluate (l ++ [t]) ltp_map
  = evaluate l ltp_map ++ match trigger ltp_map t with Some tr => [tr] | None => [] end.
Proof.
  unfold evaluate. rewrite omap_app. simpl.
  by destruct (trigger ltp_map t).
Qed.

(** After [k] iterations the session is the one obtained by applying the
    triggers of the first [k] records, and the records from index [k] on
    have not been touched. *)
Lemma auto_close_calls_prefix s k :
  k <= length (trades s) ->
  foldl (auto_close_body ltp_map) s (seq 0 k)
  = apply_triggers s (evaluate (take k (trades s)) ltp_map)
  /\ drop k (trades (foldl (auto_close_body ltp_map) s (seq 0 k))) = drop k (trades s).
Proof.
  induction k as [|k IH]; intros Hk.
  - by rewrite take_0.
  - destruct (IH ltac:(lia)) as [IH1 IH2]. clear IH.
    rewrite seq_S, foldl_app. simpl.
    set (sk := foldl (auto_close_body ltp_map) s (seq 0 k)) in *.
    destruct (lookup_lt_is_Some_2 (trades s) k ltac:(lia)) as [t Ht].
    assert (trades sk !! k = Some t) as Hsk.
    { assert (drop k (trades sk) !! 0 = Some t) as H0.
      { by rewrite IH2, lookup_drop, Nat.add_0_r. }
      by rewrite lookup_drop, Nat.add_0_r in H0. }
    assert (drop (S k) (trades sk) = drop (S k) (trades s)) as Hd.
    { replace (S k) with (k + 1) by lia. by rewrite <- !drop_drop, IH2. }
    rewrite (take_S_r _ _ _ Ht), evaluate_snoc.
    rewrite apply_triggers_app, <- IH1, auto_close_body_trigger, Hsk.
    destruct (trigger ltp_map t) as [tr|] eqn:Etr; simpl; [|done].
    split; [done|].
    apply trigger_Some in Etr as (Hid & Hop & _).
    rewrite trades_update_trade_exit, <- Hd.
    eapply update_loop_drop; [done|by split].
Qed.

Lemma auto_close_if_hit_calls s :
  auto_close_if_hit ltp_map s = apply_triggers s (evaluate (trades s) ltp_map).
Proof.
  unfold auto_close_if_hit.
  destruct (auto_close_calls_prefix s (length (trades s)) ltac:(lia)) as [-> _].
  by rewrite firstn_all.
Qed.

Lemma auto_close_one_quiet t :
  trigger ltp_map (auto_close_one ltp_map t) = None.
Proof.
  unfold auto_close_one.
  destruct (trigger ltp_map t) eqn:E; [apply trigger_close_trade|done].
Qed.

Lemma evaluate_after_pass l :
  evaluate (map (auto_close_one ltp_map) l) ltp_map = [].
Proof.
  induction l as [|t l IH]; [done|].
  unfold evaluate in *. simpl. by rewrite auto_close_one_quiet.
Qed.

Lemma auto_close_if_hit_unique s :
  unique_ids (trades s) -> unique_ids (trades (auto_close_if_hit ltp_map s)).
Proof.
  unfold unique_ids.
  by rewrite (Forall2_closes_ids _ _ (auto_close_if_hit_closes ltp_map s)).
Qed.
End auto_close_calls.

Section update_lookup.
Variables (trade_id : string) (px : float).

Lemma update_loop_lookup l i t t' :
  l !! i = Some t ->
  (update_trade_exit_loop trade_id px l).1 !! i = Some t' ->
  t' = t \/ (matches trade_id t /\ t' = close_trade px t).
Proof.
  revert i. induction l as [|u r IH]; intros i Hi Hi'; [done|].
  simpl in Hi'.
  destruct (String.eqb (id u) trade_id && is_open u) eqn:E.
  - destruct i as [|i]; simpl in *.
    + injection Hi as ->. injection Hi' as <-.
      right. by apply matches_test in E.
    + left. congruence.
  - destruct (update_trade_exit_loop trade_id px r) as [r' e] eqn:Er.
    destruct i as [|i]; simpl in *; [left; congruence|].
    by apply (IH i).
Qed.
End update_lookup.

(** ** What an evaluation pass does to one slot, on any ledger *)

Section auto_close_slots.
Variable ltp_map : gmap string float.

(** After [k] iterations a slot holds its old record, or that record closed
    by the call issued for a record with the same id visited at or after
    it. *)
Lemma auto_close_prefix_slots (s : session) (k : nat) :
  k <= length (trades s) ->
  forall i t t', trades s !! i = Some t ->
    trades (foldl (auto_close_body ltp_map) s (seq 0 k)) !! i = Some t' ->
    t' = t \/
    exists j u tr, j < k /\ i <= j /\ trades s !! j = Some u /\
      trigger ltp_map u = Some tr /\ tr.1 = id t /\ status t = OPEN /\
      t' = close_trade tr.2 t.
Proof.
  induction k as [|k IH]; intros Hk i t t' Hi Hi'.
  - simpl in Hi'. left. congruence.
  - specialize (IH ltac:(lia)).
    destruct (auto_close_calls_prefix ltp_map s k ltac:(lia)) as [_ Hd].
    rewrite seq_S, foldl_app in Hi'. simpl in Hi'.
    pose proof (auto_close_loop_closes ltp_map (seq 0 k) s) as Hcl.
    set (sk := foldl (auto_close_body ltp_map) s (seq 0 k)) in *.
    destruct (lookup_lt_is_Some_2 (trades s) k ltac:(lia)) as [tk Htk].
    assert (trades sk !! k = Some tk) as Hsk.
    { assert (drop k (trades sk) !! 0 = Some tk) as H0.
      { by rewrite Hd, lookup_drop, Nat.add_0_r. }
      by rewrite lookup_drop, Nat.add_0_r in H0. }
    destruct (Forall2_lookup_l _ _ _ _ _ Hcl Hi) as (t1 & H1 & _).
    rewrite auto_close_body_trigger, Hsk in Hi'.
    destruct (trigger ltp_map tk) as [tr|] eqn:Etr.
    + rewrite trades_update_trade_exit in Hi'.
      destruct (update_loop_lookup _ _ _ _ _ _ H1 Hi') as [->|[[Hid Ho] ->]].
      * destruct (IH i t t1 Hi H1) as [?|(j & u & tr' & Hj & Hrest)]; [by left|].
        right. exists j, u, tr'. split; [lia|done].
      * destruct (IH i t t1 Hi H1) as [->|(j & u & tr' & _ & _ & _ & _ & _ & _ & ->)];
          [|done].
        right. exists k, tk, tr.
        split; [lia|]. split; [|done].
        destruct (decide (i <= k)) as [|Hgt]; [done|]. exfalso.
        apply trigger_Some in Etr as (Hidk & Hok & _).
        pose proof (update_loop_drop tr.1 tr.2 (trades sk) k tk Hsk (conj (eq_sym Hidk) Hok))
          as Hdrop.
        apply (f_equal (fun l => l !! (i - S k))) in Hdrop.
        rewrite !lookup_drop in Hdrop.
        replace (S k + (i - S k)) with i in Hdrop by lia.
        rewrite Hi', H1 in Hdrop. injection Hdrop as Hdrop.
        apply (f_equal status) in Hdrop. simpl in Hdrop. congruence.
    + destruct (IH i t t' Hi Hi') as [?|(j & u & tr' & Hj & Hrest)]; [by left|].
      right. exists j, u, tr'. split; [lia|done].
Qed.

Lemma auto_close_if_hit_slots (s : session) (i : nat) (t t' : Trade) :
  trades s !! i = Some t ->
  trades (auto_close_if_hit ltp_map s) !! i = Some t' ->
  t' = t \/
  exists j u tr, i <= j /\ trades s !! j = Some u /\
    trigger ltp_map u = Some tr /\ tr.1 = id t /\ status t = OPEN /\
    t' = close_trade tr.2 t.
Proof.
  intros Hi Hi'.
  destruct (auto_close_prefix_slots s (length (trades s)) ltac:(lia) i t t' Hi Hi')
    as [?|(j & u & tr & _ & H)]; [by left|].
  right. by exists j, u, tr.
Qed.

(** A record keeps its slot untouched when no open, auto-close-enabled
    record of the ledger carries its id. *)
Lemma pass_keeps_unshadowed (s : session) (i : nat) (t : Trade) :
  trades s !! i = Some t ->
  (forall u, u ∈ trades s -> id u = id t -> status u = OPEN -> auto_close u = false) ->
  trades (auto_close_if_hit ltp_map s) !! i = Some t.
Proof.
  intros Hi Hfree.
  destruct (Forall2_lookup_l _ _ _ _ _ (auto_close_if_hit_closes ltp_map s) Hi)
    as (t' & Hi' & _).
  destruct (auto_close_if_hit_slots s i t t' Hi Hi')
    as [->|(j & u & tr & _ & Hj & Etr & Hid & _)]; [done|].
  apply trigger_Some in Etr as (Hidu & Hou & Hau & _).
  assert (auto_close u = false) as Hf.
  { apply Hfree; [by eapply list_elem_of_lookup_2|congruence|done]. }
  congruence.
Qed.

Lemma pass_keeps_shadow_free (s : session) (tid : string) :
  (forall u, u ∈ trades s -> id u = tid -> status u = OPEN -> auto_close u = false) ->
  forall u, u ∈ trades (auto_close_if_hit ltp_map s) ->
    id u = tid -> status u = OPEN -> auto_close u = false.
Proof.
  intros Hfree u' Hin Hid Ho.
  apply list_elem_of_lookup_1 in Hin as [j Hj].
  destruct (Forall2_lookup_r _ _ _ _ _ (auto_close_if_hit_closes ltp_map s) Hj)
    as (u & Hu & [->|[_ [px ->]]]).
  - apply Hfree; [by eapply list_elem_of_lookup_2|done|done].
  - done.
Qed.
End auto_close_slots.

Lemma unique_ids_lookup (l : list Trade) (i j : nat) (t u : Trade) :
  unique_ids l -> l !! i = Some t -> l !! j = Some u -> id u = id t -> j = i.
Proof.
  intros Hu Hi Hj Hid.
  apply (NoDup_lookup (ids l) j i (id t)); [done| |].
  - unfold ids. rewrite (lookup_map_Some _ _ _ _ Hj). by rewrite Hid.
  - unfold ids. by rewrite (lookup_map_Some _ _ _ _ Hi).
Qed.

(** * The claims *)

(** ** C1: closing a missing or closed position *)

(** C1, the claim as stated, fails: closing an id that no position carries
    returns normally with the session as it was, and so does closing the id
    of a position that is already CLOSED; neither call ends in
    [NotFoundError] or [AlreadyClosedError]. *)
Lemma close_raises_no_error :
  (forall t, t ∈ trades sample_session -> id t <> "00000000") /\
  call_update_trade_exit "00000000" 3%float sample_session = Returns sample_session /\
  call_update_trade_exit "00000000" 3%float sample_session <> Raises NotFoundError /\
  (forall t, t ∈ trades closed_session -> status t = CLOSED) /\
  call_update_trade_exit "1b9d6bcd" 2%float closed_session = Returns closed_session /\
  call_update_trade_exit "1b9d6bcd" 2%float closed_session <> Raises AlreadyClosedError.
Proof.
  repeat split; try done.
  - intros t Ht. apply list_elem_of_In in Ht. simpl in Ht.
    destruct Ht as [<-|[]]. done.
  - intros t Ht. apply list_elem_of_In in Ht. simpl in Ht.
    destruct Ht as [<-|[]]. done.
Qed.

(** C1, as amended. The close operation raises no error. When no position
    carries the id, or every position carrying it is CLOSED, the call returns
    normally and leaves the session (ledger and notifications) unchanged.
    A CLOSED position is never changed by any further sequence of close
    calls, whatever their ids and prices: its [exit_price] and [pnl] stay as
    first written. *)
Theorem close_without_open_match_is_noop (trade_id : string) (px : float) (s : session) :
  ((forall t, t ∈ trades s -> id t = trade_id -> status t = CLOSED) ->
   call_update_trade_exit trade_id px s = Returns s) /\
  (forall i t, trades s !! i = Some t -> status t = CLOSED ->
   forall calls : list (string * float),
     trades (apply_triggers s calls) !! i = Some t).
Proof.
  split.
  - intros H. unfold call_update_trade_exit. f_equal.
    apply update_trade_exit_no_match, Forall_forall.
    intros t Ht [Hid Hop]. specialize (H t Ht Hid). congruence.
  - intros i t Hi Hc calls. revert s Hi.
    induction calls as [|[tid p] calls IH]; intros s Hi; [done|].
    simpl. apply IH.
    destruct (Forall2_lookup_l _ _ _ _ _ (update_trade_exit_closes tid p s) Hi)
      as (t' & Hi' & Hcl).
    by rewrite (closes_closed _ _ Hcl Hc) in Hi'.
Qed.

Lemma close_without_open_match_is_noop_witness :
  call_update_trade_exit "1b9d6bcd" 2%float closed_session = Returns closed_session /\
  trades (apply_triggers closed_session [("1b9d6bcd", 2%float); ("1b9d6bcd", 5%float)]) !! 0
  = Some (close_trade 3%float sample_trade).
Proof.
  destruct (close_without_open_match_is_noop "1b9d6bcd" 2%float closed_session) as [H1 H2].
  split.
  - apply H1. intros t Ht _. apply list_elem_of_In in Ht. simpl in Ht.
    destruct Ht as [<-|[]]. reflexivity.
  - apply H2; reflexivity.
Defined.

(** ** C2: the stored P&L *)

(** C2. A position that a close call turns from OPEN to CLOSED stores the
    price of the call as [exit_price] and [(exit - entry) * lot_size * lots]
    as [pnl]; the same holds for every position that an auto-close
    evaluation closes. The formula does not look at [option_type]: the
    unused [sign] never enters it. *)
Theorem closed_pnl_is_formula :
  (forall trade_id px s i t t',
     trades s !! i = Some t ->
     trades (update_trade_exit trade_id px s) !! i = Some t' ->
     status t = OPEN -> status t' = CLOSED ->
     exit_price t' = px /\
     pnl t' = ((px - entry t) * float_of_int (lot_size t) * float_of_int (lots t))%float) /\
  (forall ltp_map s i t t',
     trades s !! i = Some t ->
     trades (auto_close_if_hit ltp_map s) !! i = Some t' ->
     status t = OPEN -> status t' = CLOSED ->
     pnl t' = ((exit_price t' - entry t) * float_of_int (lot_size t)
               * float_of_int (lots t))%float).
Proof.
  split.
  - intros trade_id px s i t t' Hi Hi' Ho Hc.
    rewrite trades_update_trade_exit in Hi'.
    destruct (update_loop_lookup _ _ _ _ _ _ Hi Hi') as [->|[_ ->]]; [congruence|done].
  - intros ltp_map s i t t' Hi Hi' Ho Hc.
    pose proof (Forall2_lookup_lr _ _ _ _ _ _ (auto_close_if_hit_closes ltp_map s) Hi Hi')
      as [->|[_ [px ->]]]; [congruence|done].
Qed.

Lemma closed_pnl_is_formula_witness :
  (exit_price (close_trade 3%float sample_trade) = 3%float /\
   pnl (close_trade 3%float sample_trade) = 140%float) /\
  pnl (close_trade 2%float sample_trade) = (-140)%float.
Proof.
  destruct closed_pnl_is_formula as [H1 H2]. split.
  - apply (H1 "1b9d6bcd" 3%float sample_session 0%nat
             sample_trade
             (close_trade 3%float sample_trade));
      reflexivity.
  - apply (H2 {[ "MIDCPNIFTY" := 2%float ]} sample_session 0%nat
             sample_trade
             (close_trade 2%float sample_trade));
      vm_compute; reflexivity.
Defined.

(** ** C3: target before stop *)



(** ** C4: the price of an automatic closure *)

(** C4, the claim as stated, fails: when two positions carry the same id,
    the close call issued for the later one rewrites the earlier one. Here
    the call's LTP of 3.00 meets neither its target 5.00 nor its stop 1.00,
    yet the evaluation closes it, at 2.00: the target of the put that shares
    its id. *)
Lemma shared_id_closes_at_foreign_price :
  trades shared_id_session !! 0 = Some far_trade /\
  status far_trade = OPEN /\
  shared_id_snapshot !! symbol far_trade = Some 3%float /\
  hit_target far_trade 3 = false /\ hit_stop far_trade 3 = false /\
  exists t',
    trades (auto_close_if_hit shared_id_snapshot shared_id_session) !! 0 = Some t' /\
    status t' = CLOSED /\ exit_price t' = 2%float /\
    exit_price t' <> target far_trade /\ exit_price t' <> stop far_trade.
Proof.
  do 5 (split; [vm_compute; reflexivity|]).
  exists (close_trade 2 far_trade).
  do 3 (split; [vm_compute; reflexivity|]).
  split; intros H; apply (f_equal (fun x => PrimFloat.eqb x 2)) in H;
    vm_compute in H; discriminate.
Qed.

(** C4, as amended. The price an iteration of the evaluation hands to the
    close operation is the visited position's [target] (target condition
    true) or its [stop] (target condition false, stop condition true), and
    nothing else; the LTP is only compared, never passed on. So a position
    that the evaluation turns from OPEN to CLOSED stores as [exit_price] the
    [target] or [stop] of an open, auto-close-enabled position with the same
    id, found at or after it in the ledger, whose condition fired; in a
    ledger with pairwise distinct ids that is the closed position itself,
    which therefore stores its own [target] or its own [stop]. *)
Theorem auto_close_price_is_trigger_level (ltp_map : gmap string float) (s : session) :
  (forall i, auto_close_body ltp_map s i = s \/
     exists t ltp, trades s !! i = Some t /\ ltp_map !! symbol t = Some ltp /\
       ((hit_target t ltp = true /\
         auto_close_body ltp_map s i = update_trade_exit (id t) (target t) s) \/
        (hit_target t ltp = false /\ hit_stop t ltp = true /\
         auto_close_body ltp_map s i = update_trade_exit (id t) (stop t) s))) /\
  (forall i t t',
     trades s !! i = Some t ->
     trades (auto_close_if_hit ltp_map s) !! i = Some t' ->
     status t = OPEN -> status t' = CLOSED ->
     exists j u ltp, i <= j /\ trades s !! j = Some u /\ id u = id t /\
       status u = OPEN /\ auto_close u = true /\
       ltp_map !! symbol u = Some ltp /\
       ((hit_target u ltp = true /\ exit_price t' = target u) \/
        (hit_target u ltp = false /\ hit_stop u ltp = true /\ exit_price t' = stop u))) /\
  (unique_ids (trades s) ->
   forall i t t',
     trades s !! i = Some t ->
     trades (auto_close_if_hit ltp_map s) !! i = Some t' ->
     status t = OPEN -> status t' = CLOSED ->
     exists ltp, ltp_map !! symbol t = Some ltp /\
       ((hit_target t ltp = true /\ exit_price t' = target t) \/
        (hit_target t ltp = false /\ hit_stop t ltp = true /\ exit_price t' = stop t))).
Proof.
  split; [|split].
  - intros i. rewrite auto_close_body_trigger.
    destruct (trades s !! i) as [t|] eqn:Hi; [|by left].
    destruct (trigger ltp_map t) as [tr|] eqn:Etr; [|by left].
    right. apply trigger_Some in Etr as (Hid & _ & _ & ltp & Hl & Hc).
    exists t, ltp. split; [done|]. split; [done|].
    destruct Hc as [[Ht Hp]|(Ht & Hs & Hp)]; rewrite Hid, Hp; eauto.
  - intros i t t' Hi Hi' Ho Hc.
    destruct (auto_close_if_hit_slots ltp_map s i t t' Hi Hi')
      as [->|(j & u & tr & Hij & Hj & Etr & Hid & _ & ->)]; [congruence|].
    apply trigger_Some in Etr as (Hidu & Hou & Hau & ltp & Hl & Hcase).
    exists j, u, ltp.
    split; [done|]. split; [done|]. split; [congruence|].
    split; [done|]. split; [done|]. split; [done|].
    simpl. destruct Hcase as [[Ht Hp]|(Ht & Hs & Hp)]; rewrite Hp; eauto.
  - intros Hu i t t' Hi Hi' Ho Hc.
    rewrite auto_close_if_hit_map in Hi' by done.
    apply (lookup_map_inv _ _ _ _ _ Hi) in Hi'. subst t'.
    unfold auto_close_one in Hc |- *.
    destruct (trigger ltp_map t) as [tr|] eqn:Etr; [|congruence].
    apply trigger_Some in Etr as (_ & _ & _ & ltp & Hl & Hcase).
    exists ltp. split; [done|].
    destruct Hcase as [[Ht Hp]|(Ht & Hs & Hp)]; rewrite <- Hp; eauto.
Qed.

Lemma auto_close_price_is_trigger_level_witness :
  (exists j u ltp, 0 <= j /\ trades shared_id_session !! j = Some u /\
     id u = id far_trade /\ status u = OPEN /\ auto_close u = true /\
     shared_id_snapshot !! symbol u = Some ltp /\
     ((hit_target u ltp = true /\
       exit_price (close_trade 2%float far_trade) = target u) \/
      (hit_target u ltp = false /\ hit_stop u ltp = true /\
       exit_price (close_trade 2%float far_trade) = stop u))) /\
  (exists ltp, ({[ "MIDCPNIFTY" := 1.5%float ]} : gmap string float) !! symbol sample_trade = Some ltp /\
    ((hit_target sample_trade ltp = true /\
      exit_price (close_trade 2%float sample_trade) = target sample_trade) \/
     (hit_target sample_trade ltp = false /\ hit_stop sample_trade ltp = true /\
      exit_price (close_trade 2%float sample_trade) = stop sample_trade))).
Proof.
  split.
  - destruct (auto_close_price_is_trigger_level shared_id_snapshot shared_id_session)
      as (_ & H & _).
    apply (H 0%nat far_trade (close_trade 2%float far_trade));
      vm_compute; reflexivity.
  - destruct (auto_close_price_is_trigger_level {[ "MIDCPNIFTY" := 1.5%float ]} sample_session)
      as (_ & _ & H).
    apply (H ltac:(unfold unique_ids; simpl; apply NoDup_singleton) 0%nat
             sample_trade (close_trade 2%float sample_trade));
      vm_compute; reflexivity.
Defined.

(** ** C5: the two conditions *)

(** C5. For a position and an LTP, the target condition is [ltp >= target]
    and the stop condition is [stop > 0 and ltp <= stop], whatever the option
    type (the two branches of the source compute the same thing); a position
    whose stop is 0 never meets the stop condition, and when its target is
    not reached either, the iteration that visits it leaves the session as it
    is. *)
Theorem trigger_conditions (t : Trade) (ltp : float) :
  (hit_target t ltp = true <-> float_ge ltp (target t) = true) /\
  (hit_stop t ltp = true <->
   float_gt (stop t) 0 = true /\ PrimFloat.leb ltp (stop t) = true) /\
  (stop t = 0%float -> hit_stop t ltp = false) /\
  (stop t = 0%float -> float_ge ltp (target t) = false ->
   forall ltp_map s i, trades s !! i = Some t -> ltp_map !! symbol t = Some ltp ->
     auto_close_body ltp_map s i = s).
Proof.
  assert (stop t = 0%float -> hit_stop t ltp = false) as Hzero.
  { intros H0. unfold hit_stop. rewrite H0. by destruct (option_type t). }
  split; [|split; [|split]].
  - unfold hit_target. by destruct (option_type t).
  - unfold hit_stop. destruct (option_type t); apply andb_true_iff.
  - exact Hzero.
  - intros H0 Hge ltp_map s i Hi Hl.
    unfold auto_close_body. rewrite Hi, Hl, (Hzero H0).
    assert (hit_target t ltp = false) as ->.
    { unfold hit_target. by destruct (option_type t). }
    by destruct (negb (is_open t)), (auto_close t).
Qed.

Lemma trigger_conditions_witness :
  hit_stop manual_trade
    0%float = false /\
  auto_close_body {[ "MIDCPNIFTY" := 0%float ]} manual_session 0 = manual_session.
Proof.
  destruct (trigger_conditions
              manual_trade
              0%float) as (_ & _ & H3 & H4).
  split.
  - apply H3. reflexivity.
  - apply H4; vm_compute; reflexivity.
Defined.

(** ** C9: positions that opted out *)

(** C9, the claim as stated, fails: an opted-out position that shares its id
    with a later auto-close-enabled position is closed by the evaluation.
    One pass with an LTP of 2.50 for the put closes the opted-out call at
    the put's target, 2.00. *)
Lemma opted_out_position_is_auto_closed :
  trades shadowed_session !! 0 = Some shadowed_trade /\
  auto_close shadowed_trade = false /\ status shadowed_trade = OPEN /\
  exists t',
    trades (auto_close_if_hit {[ "NIFTY" := 2.5%float ]} shadowed_session) !! 0 = Some t' /\
    status t' = CLOSED /\ exit_price t' = 2%float /\ pnl t' = (-70)%float.
Proof.
  do 3 (split; [vm_compute; reflexivity|]).
  exists (close_trade 2 shadowed_trade).
  repeat split; vm_compute; reflexivity.
Qed.

(** C9, as amended. The iteration that visits a position with [auto_close]
    false issues no close call, whatever the snapshot. When no open,
    auto-close-enabled position of the ledger carries its id, in particular
    in a ledger with pairwise distinct ids, the position is exactly as it
    was after any number of evaluation passes over any snapshots. A pass
    changes it only by closing it through the call issued for a later open,
    auto-close-enabled position with the same id. *)
Theorem opt_out_is_never_auto_closed (s : session) (i : nat) (t : Trade) :
  trades s !! i = Some t -> auto_close t = false ->
  (forall ltp_map, auto_close_body ltp_map s i = s) /\
  ((forall u, u ∈ trades s -> id u = id t -> status u = OPEN -> auto_close u = false) ->
   forall snapshots : list (gmap string float),
     trades (foldl (fun s ltp_map => auto_close_if_hit ltp_map s) s snapshots) !! i = Some t) /\
  (unique_ids (trades s) ->
   forall snapshots : list (gmap string float),
     trades (foldl (fun s ltp_map => auto_close_if_hit ltp_map s) s snapshots) !! i = Some t) /\
  (forall ltp_map t',
     trades (auto_close_if_hit ltp_map s) !! i = Some t' -> t' <> t ->
     status t = OPEN /\ status t' = CLOSED /\
     exists j u, i < j /\ trades s !! j = Some u /\ id u = id t /\
       status u = OPEN /\ auto_close u = true).
Proof.
  intros Hi Ha.
  assert (forall ltp_map, trigger ltp_map t = None) as Hq.
  { intros ltp_map. unfold trigger. rewrite Ha.
    destruct (negb (is_open t)); [done|]. by destruct (ltp_map !! symbol t). }
  assert ((forall u, u ∈ trades s -> id u = id t -> status u = OPEN ->
                     auto_close u = false) ->
          forall snapshots : list (gmap string float),
            trades (foldl (fun s ltp_map => auto_close_if_hit ltp_map s) s snapshots) !! i
            = Some t) as Hfree.
  { intros Hf snapshots. revert s Hi Hf.
    induction snapshots as [|m snapshots IH]; intros s Hi Hf; [done|].
    simpl. apply IH; [by apply pass_keeps_unshadowed|by apply pass_keeps_shadow_free]. }
  split; [|split; [|split]].
  - intros ltp_map. by rewrite auto_close_body_trigger, Hi, Hq.
  - exact Hfree.
  - intros Hu. apply Hfree. intros u Hin Hid _.
    apply list_elem_of_lookup_1 in Hin as [j Hj].
    assert (j = i) as -> by by eapply unique_ids_lookup.
    congruence.
  - intros ltp_map t' Hi' Hne.
    destruct (auto_close_if_hit_slots ltp_map s i t t' Hi Hi')
      as [->|(j & u & tr & Hij & Hj & Etr & Hid & Ho & ->)]; [done|].
    apply trigger_Some in Etr as (Hidu & Hou & Hau & _).
    split; [done|]. split; [done|].
    exists j, u. split; [|split; [done|split; [congruence|done]]].
    destruct (decide (j = i)) as [->|]; [|lia]. congruence.
Qed.

Lemma opt_out_is_never_auto_closed_witness :
  auto_close_body {[ "MIDCPNIFTY" := 5%float ]} manual_session 0 = manual_session /\
  trades (foldl (fun s ltp_map => auto_close_if_hit ltp_map s)
            (add_trade uuid_b "2025-08-14 09:45:00" manual_form
               (add_trade uuid_a "2025-08-14 09:30:00" manual_form init_state))
            [ {[ "MIDCPNIFTY" := 5%float ]}; {[ "MIDCPNIFTY" := 0.5%float ]} ]) !! 0
  = Some shadowed_trade /\
  trades (foldl (fun s ltp_map => auto_close_if_hit ltp_map s) manual_session
            [ {[ "MIDCPNIFTY" := 5%float ]}; {[ "MIDCPNIFTY" := 0.5%float ]} ]) !! 0
  = Some manual_trade.
Proof.
  destruct (opt_out_is_never_auto_closed manual_session 0
              manual_trade
              eq_refl eq_refl) as (H1 & _ & H3 & _).
  destruct (opt_out_is_never_auto_closed
              (add_trade uuid_b "2025-08-14 09:45:00" manual_form
                 (add_trade uuid_a "2025-08-14 09:30:00" manual_form init_state)) 0
              shadowed_trade
              eq_refl eq_refl) as (_ & H2 & _).
  split; [apply H1|]. split.
  - apply H2. intros u Hin _ _. apply list_elem_of_In in Hin. simpl in Hin.
    destruct Hin as [<-|[<-|[]]]; reflexivity.
  - apply H3. unfold unique_ids. simpl. apply NoDup_singleton.
Defined.

(** ** C10: what a successful close touches *)

(** C10. When some OPEN position carries the id, the close call rewrites
    exactly one slot of the ledger: the first OPEN position with that id.
    The ledger keeps its length and order, every other slot is as before,
    and in the rewritten record only [status], [exit_price] and [pnl] differ
    from the old one. *)
Theorem close_touches_one_record (trade_id : string) (px : float) (s : session) :
  (exists t, t ∈ trades s /\ id t = trade_id /\ status t = OPEN) ->
  exists (i : nat) (t t' : Trade),
    trades s !! i = Some t /\ id t = trade_id /\ status t = OPEN /\
    (forall j u, j < i -> trades s !! j = Some u -> ~ matches trade_id u) /\
    trades (update_trade_exit trade_id px s) = <[i := t']> (trades s) /\
    length (trades (update_trade_exit trade_id px s)) = length (trades s) /\
    (forall j, j <> i -> trades (update_trade_exit trade_id px s) !! j = trades s !! j) /\
    id t' = id t /\ ts t' = ts t /\ symbol t' = symbol t /\
    option_type t' = option_type t /\ strike t' = strike t /\
    expiry t' = expiry t /\ lot_size t' = lot_size t /\ lots t' = lots t /\
    entry t' = entry t /\ target t' = target t /\ stop t' = stop t /\
    auto_close t' = auto_close t /\
    status t' = CLOSED /\ exit_price t' = px /\
    pnl t' = ((px - entry t) * float_of_int (lot_size t) * float_of_int (lots t))%float.
Proof.
  intros (t0 & Hin & Hid0 & Ho0).
  rewrite trades_update_trade_exit.
  destruct (update_loop_cases trade_id (trades s)) as [Hno|(l1 & t & l2 & Hl & H1 & Ht)].
  - rewrite Forall_forall in Hno. destruct (Hno t0 Hin). by split.
  - rewrite Hl, update_loop_first by done. simpl.
    exists (length l1), t, (close_trade px t).
    assert ((l1 ++ t :: l2) !! length l1 = Some t) as Hi by by apply list_lookup_middle.
    assert (l1 ++ close_trade px t :: l2 = <[length l1 := close_trade px t]> (l1 ++ t :: l2))
      as Hins.
    { rewrite insert_app_r_alt by lia. by rewrite Nat.sub_diag. }
    destruct Ht as [Hid Ho].
    split; [done|]. split; [done|]. split; [done|]. split.
    { intros j u Hj Hu. rewrite lookup_app_l in Hu by done.
      rewrite Forall_forall in H1. apply H1. by eapply list_elem_of_lookup_2. }
    split; [done|]. split.
    { by rewrite Hins, length_insert. }
    split.
    { intros j Hj. rewrite Hins. by apply list_lookup_insert_ne. }
    by repeat split.
Qed.

Lemma close_touches_one_record_witness :
  exists (i : nat) (t t' : Trade),
    trades sample_session !! i = Some t /\
    trades (update_trade_exit "1b9d6bcd" 3%float sample_session)
    = <[i := t']> (trades sample_session) /\
    status t' = CLOSED /\ exit_price t' = 3%float.
Proof.
  destruct (close_touches_one_record "1b9d6bcd" 3%float sample_session)
    as (i & t & t' & H).
  - exists sample_trade. split; [|split; reflexivity].
    apply list_elem_of_In. simpl. left. reflexivity.
  - exists i, t, t'. intuition.
Defined.

(** ** C6: creating a position *)

(** C6, the claim as stated, fails: a form whose symbol is blank after
    trimming is not rejected. The handler returns normally and the ledger
    gains a position with the empty symbol. *)
Lemma blank_symbol_is_accepted :
  strip (f_symbol blank_form) = "" /\
  call_add_trade uuid_a "2025-08-14 09:30:00" blank_form init_state <> Raises ValidationError /\
  trades (add_trade uuid_a "2025-08-14 09:30:00" blank_form init_state) <> trades init_state /\
  symbol <$> trades (add_trade uuid_a "2025-08-14 09:30:00" blank_form init_state) = [""].
Proof. repeat split; done. Qed.

(** C6, as amended. The create operation checks nothing and raises no
    [ValidationError]: whatever the form holds, it returns normally, having
    appended exactly one position built from the form (symbol trimmed and
    upper-cased, id the first eight characters of the UUID) with status
    OPEN, exit price 0 and P&L 0; the positions already in the ledger and
    the notifications are untouched. Numeric minimums and the choice of
    option type are the input widgets' business, upstream of the handler. *)
Theorem add_trade_always_appends (uuid4 now : string) (f : Form) (s : session) :
  call_add_trade uuid4 now f s = Returns (add_trade uuid4 now f s) /\
  toasts (add_trade uuid4 now f s) = toasts s /\
  exists t,
    trades (add_trade uuid4 now f s) = trades s ++ [t] /\
    status t = OPEN /\ exit_price t = 0%float /\ pnl t = 0%float /\
    id t = substring 0 8 uuid4 /\ ts t = now /\
    symbol t = upper (strip (f_symbol f)) /\ option_type t = f_option_type f /\
    strike t = f_strike f /\ expiry t = strip (f_expiry f) /\
    lot_size t = f_lot_size f /\ lots t = f_lots f /\
    entry t = f_entry f /\ target t = f_target f /\ stop t = f_stop f /\
    auto_close t = f_auto_close f.
Proof.
  split; [done|]. split; [done|].
  exists (new_trade uuid4 now f). by repeat split.
Qed.

(** ** C7: ids *)

(** C7, the claim as stated, fails: two "Add Trade" clicks whose UUID draws
    differ but agree on their first eight characters yield two positions
    with the same id. *)
Lemma colliding_uuid_prefixes_share_an_id :
  uuid_a <> uuid_b /\
  ids (trades (add_trades colliding_requests init_state)) = ["1b9d6bcd"; "1b9d6bcd"] /\
  ~ unique_ids (trades (add_trades colliding_requests init_state)).
Proof.
  split; [done|]. split; [done|].
  unfold unique_ids. simpl. intros H. apply NoDup_cons in H as [H _].
  apply H. apply list_elem_of_In. by left.
Qed.

(** C7, as amended. The id of a created position is the first eight
    characters of the UUID drawn for it, and the code does not compare it
    with the ids already in the ledger. After a sequence of create calls the
    ledger's ids are the earlier ids followed by those prefixes, so they are
    pairwise distinct exactly when the earlier ids and the drawn prefixes
    are. Closing a position, manually or by evaluation, never changes,
    removes or frees an id. *)
Theorem ids_follow_uuid_prefixes (reqs : list (string * string * Form)) (s : session) :
  ids (trades (add_trades reqs s))
  = ids (trades s) ++ map (fun r => substring 0 8 r.1.1) reqs /\
  (unique_ids (trades (add_trades reqs s)) <->
   NoDup (ids (trades s) ++ map (fun r => substring 0 8 r.1.1) reqs)) /\
  (forall trade_id px, ids (trades (update_trade_exit trade_id px s)) = ids (trades s)) /\
  (forall ltp_map, ids (trades (auto_close_if_hit ltp_map s)) = ids (trades s)).
Proof.
  assert (ids (trades (add_trades reqs s))
          = ids (trades s) ++ map (fun r => substring 0 8 r.1.1) reqs) as Hids.
  { revert s. induction reqs as [|[[u n] f] reqs IH]; intros s; simpl.
    - by rewrite app_nil_r.
    - unfold add_trades in *. simpl. rewrite IH.
      unfold ids. simpl. by rewrite map_app, <- app_assoc. }
  split; [done|]. split; [unfold unique_ids; by rewrite Hids|]. split.
  - intros trade_id px. apply Forall2_closes_ids, update_trade_exit_closes.
  - intros ltp_map. apply Forall2_closes_ids, auto_close_if_hit_closes.
Qed.

(** ** C8: what the evaluation does to the ledger *)

(** C8, the claim as stated, fails: the evaluation itself rewrites the
    ledger. One pass over the sample session with an LTP at the target
    leaves the position CLOSED with exit price and P&L written. *)
Lemma evaluation_mutates_the_ledger :
  status <$> trades sample_session = [OPEN] /\
  trades (auto_close_if_hit {[ "MIDCPNIFTY" := 3%float ]} sample_session)
  = [close_trade 3%float sample_trade] /\
  trades (auto_close_if_hit {[ "MIDCPNIFTY" := 3%float ]} sample_session)
  <> trades sample_session.
Proof.
  split; [done|].
  assert (trades (auto_close_if_hit {[ "MIDCPNIFTY" := 3%float ]} sample_session)
          = [close_trade 3%float sample_trade]) as H by (vm_compute; reflexivity).
  split; [done|]. rewrite H. discriminate.
Qed.

(** C8, as amended. The evaluation is a function of the session and the
    snapshot that applies its own closures: its result is the session
    obtained by feeding the triggers of [evaluate], in ledger order, into the
    close operation, and it changes the ledger in no other way. The trigger
    list itself depends only on the positions and the snapshot. On a ledger
    with pairwise distinct ids, evaluating again with the same snapshot
    changes nothing further. *)
Theorem auto_close_if_hit_applies_its_triggers (ltp_map : gmap string float) (s : session) :
  auto_close_if_hit ltp_map s = apply_triggers s (evaluate (trades s) ltp_map) /\
  (unique_ids (trades s) ->
   evaluate (trades (auto_close_if_hit ltp_map s)) ltp_map = [] /\
   auto_close_if_hit ltp_map (auto_close_if_hit ltp_map s) = auto_close_if_hit ltp_map s).
Proof.
  split; [apply auto_close_if_hit_calls|].
  intros Hu.
  assert (evaluate (trades (auto_close_if_hit ltp_map s)) ltp_map = []) as He.
  { rewrite auto_close_if_hit_map by done. apply evaluate_after_pass. }
  split; [done|].
  by rewrite (auto_close_if_hit_calls ltp_map (auto_close_if_hit ltp_map s)), He.
Qed.

Lemma auto_close_if_hit_applies_its_triggers_witness :
  auto_close_if_hit {[ "MIDCPNIFTY" := 3%float ]}
    (auto_close_if_hit {[ "MIDCPNIFTY" := 3%float ]} sample_session)
  = auto_close_if_hit {[ "MIDCPNIFTY" := 3%float ]} sample_session.
Proof.
  destruct (auto_close_if_hit_applies_its_triggers {[ "MIDCPNIFTY" := 3%float ]} sample_session)
    as [_ H].
  apply H. unfold unique_ids. simpl. apply NoDup_singleton.
Defined.

(** * Further properties of the script *)

(** ** [init_state] *)

Lemma set_if_absent_lookup (k : string) (v : Value) (ss : gmap string Value) (j : string) :
  set_if_absent k v ss !! j
  = if decide (j = k) then Some (default v (ss !! k)) else ss !! j.
Proof.
  unfold set_if_absent. destruct (ss !! k) as [w|] eqn:E.
  - destruct (decide (j = k)) as [->|]; [by rewrite E|done].
  - destruct (decide (j = k)) as [->|].
    + by rewrite lookup_insert_eq.
    + by rewrite lookup_insert_ne.
Qed.

Lemma set_if_absent_present (k : string) (v : Value) (ss : gmap string Value) :
  is_Some (ss !! k) -> set_if_absent k v ss = ss.
Proof. unfold set_if_absent. by intros [w ->]. Qed.

(** X1. [init_state] fills each of its four keys with the default only when
    the key is absent, keeps every value already stored (the ledger
    included), touches no other key, and running it again changes
    nothing. *)
Theorem init_state_keys_fills_only_absent (ss : gmap string Value) :
  init_state_keys ss !! "trades" = Some (default (VTrades []) (ss !! "trades")) /\
  init_state_keys ss !! "default_symbol"
  = Some (default (VStr "MIDCPNIFTY") (ss !! "default_symbol")) /\
  init_state_keys ss !! "default_lot" = Some (default (VInt 140) (ss !! "default_lot")) /\
  init_state_keys ss !! "last_form" = Some (default (VDict []) (ss !! "last_form")) /\
  (forall k v, ss !! k = Some v -> init_state_keys ss !! k = Some v) /\
  (forall k, k <> "trades" -> k <> "default_symbol" -> k <> "default_lot" ->
             k <> "last_form" -> init_state_keys ss !! k = ss !! k) /\
  init_state_keys (init_state_keys ss) = init_state_keys ss.
Proof.
  assert (forall j, init_state_keys ss !! j =
    if decide (j = "last_form") then Some (default (VDict []) (ss !! "last_form"))
    else if decide (j = "default_lot") then Some (default (VInt 140) (ss !! "default_lot"))
    else if decide (j = "default_symbol")
         then Some (default (VStr "MIDCPNIFTY") (ss !! "default_symbol"))
    else if decide (j = "trades") then Some (default (VTrades []) (ss !! "trades"))
    else ss !! j) as Hl.
  { intros j. unfold init_state_keys. rewrite !set_if_absent_lookup.
    repeat (destruct (decide _) as [?|?]; try done). }
  assert (forall k, is_Some (init_state_keys ss !! k) ->
            forall v, set_if_absent k v (init_state_keys ss) = init_state_keys ss) as Hp.
  { intros k Hk v. by apply set_if_absent_present. }
  split; [by rewrite Hl|]. split; [by rewrite Hl|].
  split; [by rewrite Hl|]. split; [by rewrite Hl|].
  split; [|split].
  - intros k v Hk. rewrite Hl.
    repeat (destruct (decide _) as [->|?]; [by rewrite Hk|]). done.
  - intros k H1 H2 H3 H4. rewrite Hl.
    repeat (destruct (decide _) as [?|?]; try done).
  - unfold init_state_keys at 1.
    rewrite (Hp "trades") by (rewrite Hl; eauto).
    rewrite (Hp "default_symbol") by (rewrite Hl; eauto).
    rewrite (Hp "default_lot") by (rewrite Hl; eauto).
    apply Hp. rewrite Hl. eauto.
Qed.

Lemma init_state_keys_fills_only_absent_witness :
  init_state_keys {[ "trades" := VTrades (trades sample_session) ]} !! "trades"
  = Some (VTrades (trades sample_session)).
Proof.
  destruct (init_state_keys_fills_only_absent
              {[ "trades" := VTrades (trades sample_session) ]}) as (_ & _ & _ & _ & H & _).
  apply H. reflexivity.
Defined.

(** ** [to_df] *)

Lemma add_keys_asdict_start (t : Trade) : add_keys [] (asdict t) = blotter_columns.
Proof. reflexivity. Qed.

Lemma add_keys_asdict_full (t : Trade) : add_keys blotter_columns (asdict t) = blotter_columns.
Proof. reflexivity. Qed.

Lemma columns_of_records (l : list Trade) :
  foldl add_keys blotter_columns (map asdict l) = blotter_columns.
Proof.
  induction l as [|t l IH]; [done|].
  cbn [map foldl]. by rewrite add_keys_asdict_full.
Qed.

Lemma row_of_lookup (t : Trade) :
  map (fun c => dict_get c (asdict t)) blotter_columns = row_of t.
Proof. reflexivity. Qed.

(** X2. The frame built by [to_df] always has the fifteen blotter columns in
    dataclass order, whether the ledger is empty (the literal list) or not
    (the keys of the stored dicts); it has one row per position, in ledger
    order, holding that position's fields; and it is empty exactly when the
    ledger is. *)
Theorem to_df_shape (s : session) :
  columns (to_df s) = blotter_columns /\
  rows (to_df s) = map row_of (trades s) /\
  length (rows (to_df s)) = length (trades s) /\
  (df_empty (to_df s) = true <-> trades s = []).
Proof.
  unfold to_df. destruct (trades s) as [|t l] eqn:E.
  - by repeat split.
  - assert (foldl add_keys [] (map asdict (t :: l)) = blotter_columns) as Hc.
    { cbn [map foldl]. rewrite add_keys_asdict_start. apply columns_of_records. }
    unfold DataFrame_of_records. rewrite Hc. cbn [columns rows].
    assert (map (fun d => map (fun c => dict_get c d) blotter_columns) (map asdict (t :: l))
            = map row_of (t :: l)) as Hr.
    { rewrite map_map. apply map_ext. intros u. apply row_of_lookup. }
    rewrite Hr. split; [done|]. split; [done|]. split; [by rewrite !length_map|].
    split; [|done]. simpl. discriminate.
Qed.

(** ** The sidebar *)

Lemma elem_of_insert_sorted (x a : string) (l : list string) :
  x ∈ insert_sorted a l <-> x = a \/ x ∈ l.
Proof.
  induction l as [|y r IH]; simpl.
  - rewrite list_elem_of_singleton, elem_of_nil. tauto.
  - destruct (String.leb a y).
    + by rewrite elem_of_cons.
    + rewrite !elem_of_cons, IH. tauto.
Qed.

Lemma elem_of_sorted (x : string) (l : list string) : x ∈ sorted l <-> x ∈ l.
Proof.
  unfold sorted. induction l as [|y r IH]; simpl; [done|].
  rewrite elem_of_insert_sorted, elem_of_cons, IH. tauto.
Qed.

Lemma lookup_fill (widget : string -> float) (l : list string)
    (m : gmap string float) (k : string) :
  foldl (fun m sym => <[sym := widget sym]> m) m l !! k
  = if decide (k ∈ l) then Some (widget k) else m !! k.
Proof.
  revert m. induction l as [|a l IH]; intros m; simpl.
  - destruct (decide (k ∈ [])) as [H|]; [|done]. by apply elem_of_nil in H.
  - rewrite IH. destruct (decide (k ∈ l)) as [Hl|Hl].
    + rewrite decide_True; [done|]. by apply elem_of_cons; right.
    + destruct (decide (k = a)) as [->|Hne].
      * rewrite lookup_insert_eq, decide_True; [done|]. by apply elem_of_cons; left.
      * rewrite lookup_insert_ne by done. rewrite decide_False; [done|].
        rewrite elem_of_cons. tauto.
Qed.

Lemma elem_of_symbols (sym : string) (l : list Trade) :
  sym ∈ sorted (elements (symbols l)) <-> exists t, t ∈ l /\ symbol t = sym.
Proof.
  rewrite elem_of_sorted, elem_of_elements. unfold symbols.
  rewrite elem_of_list_to_set, list_elem_of_In, in_map_iff.
  split; intros (t & H1 & H2).
  - exists t. by rewrite list_elem_of_In.
  - exists t. by rewrite <- list_elem_of_In.
Qed.

(** X3. The LTP map handed to the evaluation by the sidebar has an entry for
    the symbol of every position in the ledger, holding the value of that
    symbol's input box, and no entry for any other symbol. *)
Theorem ltp_inputs_covers_ledger (widget : string -> float) (s : session) :
  (forall t, t ∈ trades s -> ltp_inputs widget s !! symbol t = Some (widget (symbol t))) /\
  (forall sym, (forall t, t ∈ trades s -> symbol t <> sym) ->
               ltp_inputs widget s !! sym = None).
Proof.
  unfold ltp_inputs. split.
  - intros t Ht. rewrite lookup_fill, decide_True; [done|].
    apply elem_of_symbols. eauto.
  - intros sym Hs. rewrite lookup_fill, decide_False; [done|].
    rewrite elem_of_symbols. intros (t & Ht & Heq). by apply (Hs t).
Qed.

Lemma ltp_inputs_covers_ledger_witness :
  ltp_inputs (fun _ => 3%float) sample_session !! "MIDCPNIFTY" = Some 3%float /\
  ltp_inputs (fun _ => 3%float) sample_session !! "NIFTY" = None.
Proof.
  destruct (ltp_inputs_covers_ledger (fun _ => 3%float) sample_session) as [H1 H2].
  split.
  - apply (H1 sample_trade). apply list_elem_of_In. simpl. left. reflexivity.
  - apply H2. intros t Ht. apply list_elem_of_In in Ht. simpl in Ht.
    destruct Ht as [<-|[]]. discriminate.
Defined.

Lemma auto_close_one_after_apply (ltp_map : gmap string float) (t : Trade) (ltp : float) :
  ltp_map !! symbol t = Some ltp ->
  auto_close_one ltp_map t = after_apply ltp t.
Proof.
  intros Hl. unfold auto_close_one, trigger, after_apply, is_open, hit_target, hit_stop.
  rewrite Hl. destruct (status t); simpl; [|done].
  destruct (auto_close t); [|done].
  destruct (option_type t);
    destruct (float_ge ltp (target t)); try done;
    destruct (float_gt (stop t) 0 && PrimFloat.leb ltp (stop t)); done.
Qed.

(** X4. On a ledger with pairwise distinct ids, "Apply LTP & Auto-Close"
    decides every position from the box of its own symbol, none is skipped
    for want of an LTP: a CLOSED or opted-out position stays as it is, an
    open one is closed at its target when the box value reaches it, else at
    its stop when a stop is set and the box value is at or below it, else
    left open. *)
Theorem apply_ltp_decides_every_position (widget : string -> float) (s : session) :
  unique_ids (trades s) ->
  trades (apply_ltp widget s)
  = map (fun t => after_apply (widget (symbol t)) t) (trades s).
Proof.
  intros Hu. unfold apply_ltp. rewrite auto_close_if_hit_map by done.
  apply map_ext_in. intros t Ht. apply auto_close_one_after_apply.
  apply ltp_inputs_covers_ledger. by apply list_elem_of_In.
Qed.

Lemma apply_ltp_decides_every_position_witness :
  trades (apply_ltp (fun _ => 3%float) two_session)
  = [close_trade 3%float sample_trade; manual_trade].
Proof.
  rewrite (apply_ltp_decides_every_position (fun _ => 3%float) two_session).
  - reflexivity.
  - unfold unique_ids. vm_compute. apply NoDup_cons. split.
    + rewrite list_elem_of_singleton. discriminate.
    + apply NoDup_singleton.
Defined.

(** ** Evaluation passes that find nothing to do *)

Lemma evaluate_quiet (ltp_map : gmap string float) (l : list Trade) :
  Forall (fun t => trigger ltp_map t = None) l -> evaluate l ltp_map = [].
Proof.
  induction 1 as [|t l Ht _ IH]; [done|].
  unfold evaluate in *. simpl. by rewrite Ht.
Qed.

(** X5. An evaluation changes nothing at all, ledger or notifications, when
    the snapshot has no entry for the symbol of any open, auto-close-enabled
    position; in particular with an empty snapshot. *)
Theorem evaluation_without_ltp_is_noop (ltp_map : gmap string float) (s : session) :
  (forall t, t ∈ trades s -> status t = OPEN -> auto_close t = true ->
             ltp_map !! symbol t = None) ->
  auto_close_if_hit ltp_map s = s.
Proof.
  intros H. rewrite auto_close_if_hit_calls, evaluate_quiet; [done|].
  apply Forall_forall. intros t Ht. specialize (H t Ht).
  unfold trigger, is_open. destruct (status t); simpl; [|done].
  destruct (auto_close t).
  - by rewrite H.
  - by destruct (ltp_map !! symbol t).
Qed.

Lemma evaluation_without_ltp_is_noop_witness :
  auto_close_if_hit {[ "NIFTY" := 9%float ]} two_session = two_session.
Proof.
  apply evaluation_without_ltp_is_noop.
  intros t Ht Ho Ha. apply list_elem_of_In in Ht. simpl in Ht.
  destruct Ht as [<-|[<-|[]]]; [reflexivity|discriminate Ha].
Defined.

(** ** Notifications *)

Lemma toasts_update_trade_exit (trade_id : string) (px : float) (s : session) :
  toasts (update_trade_exit trade_id px s)
  = toasts s ++ (update_trade_exit_loop trade_id px (trades s)).2.
Proof.
  unfold update_trade_exit.
  by destruct (update_trade_exit_loop trade_id px (trades s)).
Qed.

(** X6. A close call that finds an OPEN position with the id emits exactly
    one notification, after those already emitted; it names the symbol,
    strike and option type of the position it closed and carries the exit
    price and P&L just stored in it. *)
Theorem close_notifies_once (trade_id : string) (px : float) (s : session)
    (i : nat) (t : Trade) :
  trades s !! i = Some t -> id t = trade_id -> status t = OPEN ->
  (forall j u, j < i -> trades s !! j = Some u -> ~ matches trade_id u) ->
  exists t',
    trades (update_trade_exit trade_id px s) !! i = Some t' /\
    toasts (update_trade_exit trade_id px s)
    = toasts s ++ [ {| toast_symbol := symbol t; toast_strike := strike t;
                       toast_option_type := option_type t;
                       toast_exit_price := exit_price t';
                       toast_pnl := pnl t' |} ].
Proof.
  intros Hi Hid Ho Hfirst.
  apply list_elem_of_split_length in Hi as (l1 & l2 & Hl & Hlen).
  assert (Forall (fun u => ~ matches trade_id u) l1) as H1.
  { apply Forall_lookup. intros j u Hj. apply (Hfirst j u).
    - apply lookup_lt_Some in Hj. lia.
    - rewrite Hl. by apply lookup_app_l_Some. }
  exists (close_trade px t).
  rewrite trades_update_trade_exit, toasts_update_trade_exit, Hl.
  rewrite update_loop_first by done. simpl. split; [|done].
  by apply list_lookup_middle.
Qed.

Lemma close_notifies_once_witness :
  toasts (update_trade_exit "1b9d6bcd" 3%float sample_session)
  = [ {| toast_symbol := "MIDCPNIFTY"; toast_strike := 14000%float;
         toast_option_type := CE; toast_exit_price := 3%float;
         toast_pnl := 140%float |} ].
Proof.
  assert (forall j u, j < 0 -> trades sample_session !! j = Some u ->
                      ~ matches "1b9d6bcd" u) as Hfirst by (intros j u Hj; lia).
  destruct (close_notifies_once "1b9d6bcd" 3%float sample_session 0 sample_trade
              eq_refl eq_refl eq_refl Hfirst) as (t' & Ht' & Hto).
  injection Ht' as <-. exact Hto.
Defined.

Lemma closed_count_app (l1 l2 : list Trade) :
  closed_count (l1 ++ l2) = closed_count l1 + closed_count l2.
Proof. induction l1 as [|t l1 IH]; simpl; [done|]. rewrite IH. lia. Qed.

Lemma update_loop_count (trade_id : string) (px : float) (l : list Trade) :
  closed_count (update_trade_exit_loop trade_id px l).1
  = closed_count l + length (update_trade_exit_loop trade_id px l).2.
Proof.
  destruct (update_loop_cases trade_id l) as [H|(l1 & t & l2 & -> & H1 & Ht)].
  - rewrite update_loop_no_match by done. simpl. lia.
  - rewrite update_loop_first by done. simpl.
    rewrite !closed_count_app. simpl. destruct Ht as [_ Ho].
    unfold is_open. rewrite Ho. simpl. lia.
Qed.

Lemma update_trade_exit_count (trade_id : string) (px : float) (s : session) :
  closed_count (trades (update_trade_exit trade_id px s)) + length (toasts s)
  = closed_count (trades s) + length (toasts (update_trade_exit trade_id px s)).
Proof.
  rewrite trades_update_trade_exit, toasts_update_trade_exit, update_loop_count.
  rewrite length_app. lia.
Qed.

Lemma apply_triggers_count (trs : list (string * float)) (s : session) :
  closed_count (trades (apply_triggers s trs)) + length (toasts s)
  = closed_count (trades s) + length (toasts (apply_triggers s trs)).
Proof.
  revert s. induction trs as [|[tid p] trs IH]; intros s; [done|].
  simpl. specialize (IH (update_trade_exit tid p s)). simpl in IH.
  pose proof (update_trade_exit_count tid p s). unfold apply_triggers in *. lia.
Qed.

Lemma handle_count (s : session) (a : action) :
  closed_count (trades (handle s a)) + length (toasts s)
  = closed_count (trades s) + length (toasts (handle s a)).
Proof.
  destruct a as [u n f|pick p|m]; simpl.
  - rewrite closed_count_app. simpl. lia.
  - apply update_trade_exit_count.
  - rewrite auto_close_if_hit_calls. apply apply_triggers_count.
Qed.

(** X7. However the three buttons are used from a fresh session, there are
    as many notifications as CLOSED positions: every closure is announced
    exactly once, and nothing else is announced. *)
Theorem one_notification_per_closed_position (acts : list action) :
  length (toasts (run init_state acts))
  = closed_count (trades (run init_state acts)).
Proof.
  assert (forall s, closed_count (trades (run s acts)) + length (toasts s)
                    = closed_count (trades s) + length (toasts (run s acts))) as H.
  { induction acts as [|a acts IH]; intros s; [done|].
    unfold run in *. simpl. specialize (IH (handle s a)).
    pose proof (handle_count s a). lia. }
  specialize (H init_state). simpl in H. lia.
Qed.

(** ** What every reachable ledger looks like *)

Lemma closes_record_ok (t t' : Trade) : closes t t' -> record_ok t -> record_ok t'.
Proof. intros [->|[_ [px ->]]] H; [done|]. reflexivity. Qed.

Lemma Forall2_closes_record_ok (l l' : list Trade) :
  Forall2 closes l l' -> Forall record_ok l -> Forall record_ok l'.
Proof.
  induction 1 as [|t t' l l' Ht _ IH]; intros Hl; [done|].
  apply Forall_cons in Hl as [H1 H2].
  constructor; [by eapply closes_record_ok|by apply IH].
Qed.

Lemma handle_closes (s : session) (a : action) :
  Forall2 closes (trades s) (take (length (trades s)) (trades (handle s a))) /\
  length (trades (handle s a)) = length (trades s) + (if is_add a then 1 else 0).
Proof.
  destruct a as [u n f|pick p|m]; simpl.
  - rewrite take_app_length, length_app. simpl.
    split; [apply Forall2_closes_refl|lia].
  - pose proof (update_trade_exit_closes pick p s) as H.
    rewrite (Forall2_length _ _ _ H), firstn_all. split; [done|].
    rewrite <- (Forall2_length _ _ _ H). lia.
  - pose proof (auto_close_if_hit_closes m s) as H.
    rewrite (Forall2_length _ _ _ H), firstn_all. split; [done|].
    rewrite <- (Forall2_length _ _ _ H). lia.
Qed.

Lemma handle_record_ok (s : session) (a : action) :
  Forall record_ok (trades s) -> Forall record_ok (trades (handle s a)).
Proof.
  intros H. destruct a as [u n f|pick p|m]; simpl.
  - apply Forall_app. split; [done|]. constructor; [|done]. by split.
  - eapply Forall2_closes_record_ok; [apply update_trade_exit_closes|done].
  - eapply Forall2_closes_record_ok; [apply auto_close_if_hit_closes|done].
Qed.

(** X8. However the three buttons are used from a fresh session, every
    position in the ledger is in one of two shapes: OPEN with exit price 0
    and P&L 0, or CLOSED with its P&L equal to
    [(exit_price - entry) * lot_size * lots] of its own fields. *)
Theorem every_record_is_open_blank_or_closed_booked (acts : list action) :
  forall t, t ∈ trades (run init_state acts) ->
    (status t = OPEN /\ exit_price t = 0%float /\ pnl t = 0%float) \/
    (status t = CLOSED /\
     pnl t = ((exit_price t - entry t) * float_of_int (lot_size t)
              * float_of_int (lots t))%float).
Proof.
  assert (forall s, Forall record_ok (trades s) ->
                    Forall record_ok (trades (run s acts))) as H.
  { induction acts as [|a acts IH]; intros s Hs; [done|].
    unfold run in *. simpl. by apply IH, handle_record_ok. }
  specialize (H init_state ltac:(constructor)).
  rewrite Forall_forall in H. intros t Ht. specialize (H t Ht).
  unfold record_ok in H. destruct (status t); [left|right]; tauto.
Qed.

Lemma every_record_is_open_blank_or_closed_booked_witness :
  (status sample_trade = OPEN /\ exit_price sample_trade = 0%float /\
   pnl sample_trade = 0%float) \/
  (status sample_trade = CLOSED /\
   pnl sample_trade = ((exit_price sample_trade - entry sample_trade)
                       * float_of_int (lot_size sample_trade)
                       * float_of_int (lots sample_trade))%float).
Proof.
  apply (every_record_is_open_blank_or_closed_booked
           [AddTrade uuid_a "2025-08-14 09:30:00" sample_form]).
  apply list_elem_of_In. simpl. left. reflexivity.
Defined.

(** X9. The ledger is append-only under any use of the three buttons: a
    position stays at its index for ever, either untouched or closed once
    from OPEN (all fields but status, exit price and P&L as they were); no
    position is removed, moved or reopened, and the ledger grows by exactly
    one per "Add Trade". *)
Theorem ledger_is_append_only (s : session) (acts : list action) :
  length (trades (run s acts)) = length (trades s) + length (List.filter is_add acts) /\
  (forall i t, trades s !! i = Some t ->
     exists t', trades (run s acts) !! i = Some t' /\
       (t' = t \/ (status t = OPEN /\ exists px, t' = close_trade px t))).
Proof.
  revert s. induction acts as [|a acts IH]; intros s.
  - split; [simpl; lia|]. intros i t Hi. exists t. by split; [|left].
  - destruct (handle_closes s a) as [Hc Hlen].
    destruct (IH (handle s a)) as [IH1 IH2]. unfold run in *. simpl. split.
    + rewrite IH1, Hlen. destruct (is_add a); simpl; lia.
    + intros i t Hi.
      destruct (Forall2_lookup_l _ _ _ _ _ Hc Hi) as (t1 & H1 & Hcl).
      apply lookup_take_Some in H1 as [H1 _].
      destruct (IH2 i t1 H1) as (t2 & H2 & Hcl2).
      exists t2. split; [done|].
      assert (closes t t2) as [->|?]; [|by left|by right].
      eapply closes_trans; [done|]. exact Hcl2.
Qed.

Lemma ledger_is_append_only_witness :
  exists t', trades (run sample_session
                       [ApplyLTP {[ "MIDCPNIFTY" := 3%float ]};
                        AddTrade uuid_b "2025-08-14 09:45:00" tie_form;
                        CloseSelected "1b9d6bcd" 1%float]) !! 0 = Some t' /\
    (t' = sample_trade \/
     (status sample_trade = OPEN /\ exists px, t' = close_trade px sample_trade)).
Proof.
  destruct (ledger_is_append_only sample_session
              [ApplyLTP {[ "MIDCPNIFTY" := 3%float ]};
               AddTrade uuid_b "2025-08-14 09:45:00" tie_form;
               CloseSelected "1b9d6bcd" 1%float]) as [_ H].
  apply H. reflexivity.
Defined.

(** ** How close calls compose *)

Lemma update_loop_comm (a b : string) (pa pb : float) (l : list Trade) :
  a <> b ->
  (update_trade_exit_loop a pa (update_trade_exit_loop b pb l).1).1
  = (update_trade_exit_loop b pb (update_trade_exit_loop a pa l).1).1.
Proof.
  intros Hab. induction l as [|t r IH]; [done|]. simpl.
  destruct (String.eqb (id t) b && is_open t) eqn:Eb;
    destruct (String.eqb (id t) a && is_open t) eqn:Ea.
  - apply matches_test in Ea as [Ha _]. apply matches_test in Eb as [Hb _]. congruence.
  - apply matches_test in Eb as Hm. destruct Hm as [Hb _].
    assert (String.eqb (id t) a = false) as Hne.
    { apply String.eqb_neq. congruence. }
    simpl. rewrite Hne. simpl.
    destruct (update_trade_exit_loop a pa r) as [r' e]. simpl.
    by rewrite Eb.
  - apply matches_test in Ea as Hm. destruct Hm as [Ha _].
    assert (String.eqb (id t) b = false) as Hne.
    { apply String.eqb_neq. congruence. }
    destruct (update_trade_exit_loop b pb r) as [r' e] eqn:Er. simpl.
    rewrite Ea. simpl. rewrite Hne. simpl. by rewrite Er.
  - destruct (update_trade_exit_loop b pb r) as [rb eb] eqn:Erb.
    destruct (update_trade_exit_loop a pa r) as [ra ea] eqn:Era.
    simpl in *. rewrite Ea, Eb.
    destruct (update_trade_exit_loop a pa rb) as [rab eab].
    destruct (update_trade_exit_loop b pb ra) as [rba eba].
    simpl in *. by rewrite IH.
Qed.

(** X10. Close calls for two different ids can be made in either order: the
    resulting ledger is the same (only the order of the two notifications
    differs). *)
Theorem closes_of_distinct_ids_commute (a b : string) (pa pb : float) (s : session) :
  a <> b ->
  trades (update_trade_exit a pa (update_trade_exit b pb s))
  = trades (update_trade_exit b pb (update_trade_exit a pa s)).
Proof.
  intros Hab. rewrite !trades_update_trade_exit. by apply update_loop_comm.
Qed.

Lemma closes_of_distinct_ids_commute_witness :
  trades (update_trade_exit "1b9d6bcd" 3%float (update_trade_exit "0a1b2c3d" 2%float two_session))
  = trades (update_trade_exit "0a1b2c3d" 2%float (update_trade_exit "1b9d6bcd" 3%float two_session)).
Proof. apply closes_of_distinct_ids_commute. discriminate. Defined.

(** X11. A position added under an id that no earlier position carries can
    be closed by that id straight away: the close call rewrites the new
    position, at the end of the ledger, and leaves every earlier position as
    it was. *)
Theorem add_then_close (uuid4 now : string) (f : Form) (px : float) (s : session) :
  (forall t, t ∈ trades s -> id t <> substring 0 8 uuid4) ->
  trades (update_trade_exit (substring 0 8 uuid4) px (add_trade uuid4 now f s))
  = trades s ++ [close_trade px (new_trade uuid4 now f)].
Proof.
  intros Hfresh. rewrite trades_update_trade_exit. simpl.
  rewrite update_loop_first; [done| |by split].
  apply Forall_forall. intros t Ht [Hid _]. by apply (Hfresh t).
Qed.

Lemma add_then_close_witness :
  trades (update_trade_exit "7c0e1f2a" 2.5%float
            (add_trade "7c0e1f2a-1111-4222-8333-444455556666" "2025-08-14 09:31:00"
               tie_form sample_session))
  = [sample_trade; close_trade 2.5%float tie_trade].
Proof.
  apply (add_then_close "7c0e1f2a-1111-4222-8333-444455556666" "2025-08-14 09:31:00"
           tie_form 2.5%float sample_session).
  intros t Ht. apply list_elem_of_In in Ht. simpl in Ht.
  destruct Ht as [<-|[]]. discriminate.
Defined.

(** ** The preview and the booked P&L *)

(** X12. The total shown under the form ("For n lot(s)") is, bit for bit,
    the P&L booked when that trade is later auto-closed at its target: after
    adding the trade under a fresh id to a ledger with pairwise distinct
    ids, an evaluation whose LTP for its symbol reaches the target leaves it
    CLOSED at the target with [pnl] equal to the previewed total. *)
Theorem preview_is_booked_at_target
    (uuid4 now : string) (f : Form) (s : session)
    (ltp_map : gmap string float) (ltp : float) :
  unique_ids (trades (add_trade uuid4 now f s)) ->
  f_auto_close f = true ->
  ltp_map !! upper (strip (f_symbol f)) = Some ltp ->
  float_ge ltp (f_target f) = true ->
  exists t',
    trades (auto_close_if_hit ltp_map (add_trade uuid4 now f s)) !! length (trades s) = Some t' /\
    status t' = CLOSED /\ exit_price t' = f_target f /\ pnl t' = preview_total f.
Proof.
  intros Hu Ha Hl Hge.
  exists (close_trade (f_target f) (new_trade uuid4 now f)).
  split; [|done].
  rewrite auto_close_if_hit_map by done.
  assert (trades (add_trade uuid4 now f s) !! length (trades s)
          = Some (new_trade uuid4 now f)) as Hi.
  { simpl. by apply list_lookup_middle. }
  rewrite (lookup_map_Some _ _ _ _ Hi). f_equal.
  rewrite (auto_close_one_after_apply ltp_map _ ltp) by done.
  unfold after_apply. simpl. by rewrite Ha, Hge.
Qed.

Lemma preview_is_booked_at_target_witness :
  exists t',
    trades (auto_close_if_hit {[ "NIFTY" := 2%float ]}
              (add_trade "7c0e1f2a-1111-4222-8333-444455556666" "2025-08-14 09:31:00"
                 tie_form sample_session)) !! length (trades sample_session) = Some t' /\
    status t' = CLOSED /\ exit_price t' = f_target tie_form /\
    pnl t' = preview_total tie_form.
Proof.
  apply (preview_is_booked_at_target "7c0e1f2a-1111-4222-8333-444455556666"
           "2025-08-14 09:31:00" tie_form sample_session {[ "NIFTY" := 2%float ]} 2%float);
    try (vm_compute; reflexivity).
  unfold unique_ids. vm_compute. apply NoDup_cons. split.
  - rewrite list_elem_of_singleton. discriminate.
  - apply NoDup_singleton.
Defined.

(** ** Notifications of an evaluation pass *)

Lemma earlier_records_do_not_match (ltp_map : gmap string float)
    (l : list Trade) (k : nat) (t : Trade) :
  unique_ids l -> l !! k = Some t ->
  Forall (fun u => ~ matches (id t) u) (map (auto_close_one ltp_map) (take k l)).
Proof.
  intros Hu Ht. apply List.Forall_forall. intros u Hin [Hidu _].
  apply in_map_iff in Hin as (u0 & <- & Hu0).
  assert (id u0 = id t) as Heq.
  { rewrite <- Hidu. unfold auto_close_one. by destruct (trigger ltp_map u0). }
  unfold unique_ids, ids in Hu.
  rewrite <- (take_drop k l), (drop_S _ _ _ Ht), map_app in Hu.
  apply NoDup_app in Hu as (_ & Hdis & _).
  apply (Hdis (id t)); apply list_elem_of_In; [|by left].
  rewrite <- Heq. by apply (in_map (fun t => id t)).
Qed.

Lemma auto_close_prefix_toasts (ltp_map : gmap string float) (s : session) (k : nat) :
  unique_ids (trades s) -> k <= length (trades s) ->
  toasts (foldl (auto_close_body ltp_map) s (seq 0 k))
  = toasts s ++ omap (trigger_toast ltp_map) (take k (trades s)).
Proof.
  intros Hu. induction k as [|k IH]; intros Hk.
  - simpl. by rewrite app_nil_r.
  - rewrite seq_S, foldl_app. simpl.
    specialize (IH ltac:(lia)).
    pose proof (auto_close_prefix ltp_map s k Hu ltac:(lia)) as Htr.
    set (sk := foldl (auto_close_body ltp_map) s (seq 0 k)) in *.
    destruct (lookup_lt_is_Some_2 (trades s) k ltac:(lia)) as [t Ht].
    rewrite (take_S_r _ _ _ Ht), omap_app. simpl.
    rewrite (drop_S _ _ _ Ht) in Htr.
    assert (trades sk !! k = Some t) as Hsk.
    { rewrite Htr. apply list_lookup_middle.
      rewrite length_map, length_take. lia. }
    rewrite auto_close_body_trigger, Hsk. unfold trigger_toast at 2.
    destruct (trigger ltp_map t) as [tr|] eqn:Etr.
    + apply trigger_Some in Etr as (Hid & Hop & _).
      rewrite toasts_update_trade_exit, Htr, Hid.
      rewrite update_loop_first;
        [|by apply earlier_records_do_not_match|by split].
      simpl. by rewrite IH, <- app_assoc.
    + by rewrite IH, app_nil_r.
Qed.

(** X13. On a ledger with pairwise distinct ids, an evaluation pass appends
    one notification for each position it closes, in ledger order, after
    the notifications already emitted; each one names that position and
    carries the target or stop price at which it was closed. *)
Theorem evaluation_notifies_in_ledger_order (ltp_map : gmap string float) (s : session) :
  unique_ids (trades s) ->
  toasts (auto_close_if_hit ltp_map s)
  = toasts s ++ omap (trigger_toast ltp_map) (trades s).
Proof.
  intros Hu. unfold auto_close_if_hit.
  rewrite auto_close_prefix_toasts by done. by rewrite firstn_all.
Qed.

Lemma evaluation_notifies_in_ledger_order_witness :
  toasts (auto_close_if_hit {[ "MIDCPNIFTY" := 3%float ]} two_session)
  = [closure_toast 3%float sample_trade].
Proof.
  rewrite (evaluation_notifies_in_ledger_order {[ "MIDCPNIFTY" := 3%float ]} two_session).
  - vm_compute. reflexivity.
  - unfold unique_ids. vm_compute. apply NoDup_cons. split.
    + rewrite list_elem_of_singleton. discriminate.
    + apply NoDup_singleton.
Defined.

(** ** Normalised text fields *)

Lemma chars_rev_app (s1 s2 : string) :
  list_ascii_of_string (String.rev_app s1 s2)
  = rev (list_ascii_of_string s1) ++ list_ascii_of_string s2.
Proof.
  revert s2. induction s1 as [|c s1 IH]; intros s2; simpl; [done|].
  by rewrite IH, <- app_assoc.
Qed.

Lemma chars_rev (s : string) :
  list_ascii_of_string (String.rev s) = rev (list_ascii_of_string s).
Proof. unfold String.rev. by rewrite chars_rev_app, app_nil_r. Qed.

Lemma chars_lstrip (s : string) :
  list_ascii_of_string (lstrip s) = lstrip_list (list_ascii_of_string s).
Proof.
  induction s as [|c s IH]; simpl; [done|].
  by destruct (is_space c).
Qed.

Lemma chars_upper (s : string) :
  list_ascii_of_string (upper s) = map upper_char (list_ascii_of_string s).
Proof. induction s as [|c s IH]; simpl; [done|]. by rewrite IH. Qed.

Lemma chars_inj (s1 s2 : string) :
  list_ascii_of_string s1 = list_ascii_of_string s2 -> s1 = s2.
Proof.
  intros H. rewrite <- (string_of_list_ascii_of_string s1),
    <- (string_of_list_ascii_of_string s2). by rewrite H.
Qed.

Lemma chars_strip (s : string) :
  list_ascii_of_string (strip s)
  = rev (lstrip_list (rev (lstrip_list (list_ascii_of_string s)))).
Proof. unfold strip. by rewrite chars_rev, chars_lstrip, chars_rev, chars_lstrip. Qed.

Lemma lstrip_list_clean (l : list ascii) : clean_head (lstrip_list l).
Proof.
  induction l as [|c l IH]; simpl; [done|].
  destruct (is_space c) eqn:E; [done|]. exact E.
Qed.

Lemma lstrip_list_id (l : list ascii) : clean_head l -> lstrip_list l = l.
Proof. destruct l as [|c l]; simpl; [done|]. by intros ->. Qed.

Lemma lstrip_list_suffix (l : list ascii) : exists p, l = p ++ lstrip_list l.
Proof.
  induction l as [|c l [p IH]]; [by exists []|]. simpl.
  destruct (is_space c).
  - exists (c :: p). simpl. by rewrite <- IH.
  - by exists [].
Qed.

Lemma clean_head_app (l1 l2 : list ascii) : clean_head (l1 ++ l2) -> clean_head l1.
Proof. by destruct l1. Qed.

(** Stripping what is already stripped changes nothing. *)
Lemma strip_list_idempotent (l : list ascii) :
  let st := fun l => rev (lstrip_list (rev (lstrip_list l))) in
  st (st l) = st l.
Proof.
  simpl. set (x := lstrip_list l). set (z := lstrip_list (rev x)).
  assert (clean_head (rev z)) as Hz.
  { destruct (lstrip_list_suffix (rev x)) as [p Hp]. fold z in Hp.
    assert (x = rev z ++ rev p) as Hx.
    { rewrite <- (rev_involutive x), Hp, rev_app_distr. done. }
    apply (clean_head_app _ (rev p)). rewrite <- Hx. apply lstrip_list_clean. }
  rewrite (lstrip_list_id _ Hz), rev_involutive.
  by rewrite (lstrip_list_id z) by apply lstrip_list_clean.
Qed.

Lemma is_space_upper_char (c : ascii) : is_space (upper_char c) = is_space c.
Proof. by destruct c as [[] [] [] [] [] [] [] []]. Qed.

Lemma upper_char_idempotent (c : ascii) : upper_char (upper_char c) = upper_char c.
Proof. by destruct c as [[] [] [] [] [] [] [] []]. Qed.

Lemma lstrip_list_upper (l : list ascii) :
  lstrip_list (map upper_char l) = map upper_char (lstrip_list l).
Proof.
  induction l as [|c l IH]; simpl; [done|].
  rewrite is_space_upper_char. by destruct (is_space c).
Qed.

Lemma strip_idempotent (s : string) : strip (strip s) = strip s.
Proof.
  apply chars_inj. rewrite (chars_strip (strip s)), !chars_strip.
  apply (strip_list_idempotent (list_ascii_of_string s)).
Qed.

Lemma strip_upper (s : string) : strip (upper s) = upper (strip s).
Proof.
  apply chars_inj.
  rewrite chars_strip, chars_upper, chars_upper, chars_strip.
  by rewrite lstrip_list_upper, <- map_rev, lstrip_list_upper, <- map_rev.
Qed.

Lemma upper_idempotent (s : string) : upper (upper s) = upper s.
Proof.
  induction s as [|c s IH]; simpl; [done|].
  by rewrite upper_char_idempotent, IH.
Qed.

(** X14. The symbol and the expiry stored by "Add Trade" are in normal form:
    trimming and upper-casing the stored symbol again, or trimming the
    stored expiry again, gives them back unchanged. So a symbol typed with
    other case or with blanks around it lands in the same LTP box as the
    one already stored. *)
Theorem stored_text_is_normalised (uuid4 now : string) (f : Form) :
  upper (strip (symbol (new_trade uuid4 now f))) = symbol (new_trade uuid4 now f) /\
  strip (expiry (new_trade uuid4 now f)) = expiry (new_trade uuid4 now f) /\
  (forall f', f_symbol f' = symbol (new_trade uuid4 now f) ->
     forall uuid4' now', symbol (new_trade uuid4' now' f') = symbol (new_trade uuid4 now f)).
Proof.
  assert (upper (strip (upper (strip (f_symbol f)))) = upper (strip (f_symbol f))) as H.
  { by rewrite strip_upper, upper_idempotent, strip_idempotent. }
  split; [exact H|]. split; [apply strip_idempotent|].
  intros f' Hf' u' n'. simpl in *. by rewrite Hf'.
Qed.

Lemma stored_text_is_normalised_witness :
  symbol (new_trade uuid_b "2025-08-14 09:45:00"
            {| f_symbol := "MIDCPNIFTY"; f_option_type := PE; f_strike := 14000%float;
               f_expiry := "14-Aug-2025"; f_lot_size := 140; f_lots := 1;
               f_entry := 2.5%float; f_target := 3%float; f_stop := 0%float;
               f_auto_close := true |})
  = symbol sample_trade.
Proof.
  destruct (stored_text_is_normalised uuid_a "2025-08-14 09:30:00" sample_form)
    as (_ & _ & H).
  apply H. reflexivity.
Defined.
